(** * Ambot Converter: the conversion orchestration subsystem

    A shallow embedding of [ambot_aiosqlite.py] ([bot.py] is the same program
    with logging added and the dead "application instance missing" branch of
    the worker removed).

    Modelling conventions.
    - SQLite INTEGER columns are unbounded [Z]; TEXT dates produced by
      [date().isoformat()] are day numbers (the rendering is injective);
      TEXT timestamps produced by [datetime.utcnow().isoformat()] are
      microseconds since the epoch, and a stored text that
      [datetime.fromisoformat] cannot use is [Garbled].
    - Every reading of the clock is an explicit argument of the function that
      reads it.
    - One SQL statement is one atomic step on the tables.
    - The transport (Telegram) is a log of the calls the program issues.
      Exceptions are modelled where the program handles them (the finaliser);
      the admission handler is modelled for a store and a transport that
      answer. *)

From Stdlib Require Import ZArith List String Bool Lia.
From stdpp Require Import base option list gmap.

Open Scope Z_scope.

(** ** Configuration (module-level constants of the program) *)

Record Config := {
  DAILY_LIMIT_PER_USER : Z;
  COOLDOWN_SECONDS : Z;
  GLOBAL_CONCURRENCY : nat
}.

(** The values used when the environment variables are unset. *)
Definition default_config : Config :=
  {| DAILY_LIMIT_PER_USER := 10; COOLDOWN_SECONDS := 60; GLOBAL_CONCURRENCY := 3 |}.

Inductive Kind := audio | video.

#[global] Instance Kind_eq_dec : EqDecision Kind.
Proof. solve_decision. Defined.

(** [AUDIO_COSTS.get(kval, max(AUDIO_COSTS.values()))] *)
Definition AUDIO_COSTS (kval : Z) : Z :=
  if kval =? 128 then 20 else if kval =? 192 then 30 else if kval =? 320 then 40 else 40.

(** [VIDEO_COSTS.get(kval, max(VIDEO_COSTS.values()))] *)
Definition VIDEO_COSTS (kval : Z) : Z :=
  if kval =? 144 then 30 else if kval =? 360 then 50 else if kval =? 720 then 80
  else if kval =? 1080 then 120 else 120.

(** ** Time *)

Definition MICRO : Z := 1000000.

(** [datetime.now(timezone(timedelta(hours=8))).date()] as a day number. *)
Definition today_utc8 (now : Z) : Z := (now + 8 * 3600 * MICRO) / (86400 * MICRO).

(** A stored [last_conversion_at] text, as [datetime.fromisoformat] sees it. *)
Inductive Stamp := Iso (t : Z) | Garbled.

(** ** The ledger store *)

Module Ledger.

Inductive Status := Done | Refunded | Failed.

Record User := {
  username : string;
  fullname : string;
  coins : Z;
  music_count : Z;
  video_count : Z;
  registered_at : option Z;
  last_daily_date : option Z;
  daily_count : Z;
  daily_count_date : option Z;
  last_conversion_at : option Stamp
}.

Record Conversion := {
  id : Z;
  user_id : Z;
  title : string;
  type : option Kind;
  quality : Z;
  cost : Z;
  created_at : Z;
  status : Status;
  refunded : bool
}.

Record Db := {
  users : gmap Z User;
  conversions : list Conversion
}.

Definition empty_db : Db := {| users := ∅; conversions := [] |}.

(** Column updates of a [users] row. *)
Definition set_names (un fn : string) (r : User) : User :=
  {| username := un; fullname := fn; coins := coins r;
     music_count := music_count r; video_count := video_count r;
     registered_at := registered_at r; last_daily_date := last_daily_date r;
     daily_count := daily_count r; daily_count_date := daily_count_date r;
     last_conversion_at := last_conversion_at r |}.

Definition set_coins (c : Z) (r : User) : User :=
  {| username := username r; fullname := fullname r; coins := c;
     music_count := music_count r; video_count := video_count r;
     registered_at := registered_at r; last_daily_date := last_daily_date r;
     daily_count := daily_count r; daily_count_date := daily_count_date r;
     last_conversion_at := last_conversion_at r |}.

Definition set_music_count (c : Z) (r : User) : User :=
  {| username := username r; fullname := fullname r; coins := coins r;
     music_count := c; video_count := video_count r;
     registered_at := registered_at r; last_daily_date := last_daily_date r;
     daily_count := daily_count r; daily_count_date := daily_count_date r;
     last_conversion_at := last_conversion_at r |}.

Definition set_video_count (c : Z) (r : User) : User :=
  {| username := username r; fullname := fullname r; coins := coins r;
     music_count := music_count r; video_count := c;
     registered_at := registered_at r; last_daily_date := last_daily_date r;
     daily_count := daily_count r; daily_count_date := daily_count_date r;
     last_conversion_at := last_conversion_at r |}.

Definition set_daily (n : Z) (d : option Z) (r : User) : User :=
  {| username := username r; fullname := fullname r; coins := coins r;
     music_count := music_count r; video_count := video_count r;
     registered_at := registered_at r; last_daily_date := last_daily_date r;
     daily_count := n; daily_count_date := d;
     last_conversion_at := last_conversion_at r |}.

Definition set_last_conversion_at (ts : option Stamp) (r : User) : User :=
  {| username := username r; fullname := fullname r; coins := coins r;
     music_count := music_count r; video_count := video_count r;
     registered_at := registered_at r; last_daily_date := last_daily_date r;
     daily_count := daily_count r; daily_count_date := daily_count_date r;
     last_conversion_at := ts |}.

(** [INSERT ... INTO users(user_id, username, fullname, coins)]: the other
    columns take their defaults. *)
Definition new_user (un fn : string) (c : Z) : User :=
  {| username := un; fullname := fn; coins := c;
     music_count := 0; video_count := 0;
     registered_at := None; last_daily_date := None;
     daily_count := 0; daily_count_date := None;
     last_conversion_at := None |}.

Definition set_status (s : Status) (rf : bool) (c : Conversion) : Conversion :=
  {| id := id c; user_id := user_id c; title := title c; type := type c;
     quality := quality c; cost := cost c; created_at := created_at c;
     status := s; refunded := rf |}.

Definition with_users (f : gmap Z User → gmap Z User) (db : Db) : Db :=
  {| users := f (users db); conversions := conversions db |}.

Definition with_conversions (f : list Conversion → list Conversion) (db : Db) : Db :=
  {| users := users db; conversions := f (conversions db) |}.

(** [INSERT OR IGNORE INTO users ...] *)
Definition insert_or_ignore (uid : Z) (r : User) (m : gmap Z User) : gmap Z User :=
  match m !! uid with
  | Some _ => m
  | None => <[uid := r]> m
  end.

Definition create_or_update_user (uid : Z) (un fn : string) (c : Z) (db : Db) : Db :=
  with_users (fun m => alter (set_names un fn) uid (insert_or_ignore uid (new_user un fn c) m)) db.

Definition get_user (uid : Z) (db : Db) : option User := users db !! uid.

(** [UPDATE users SET coins = coins + ? WHERE user_id = ?] *)
Definition add_coins (uid : Z) (amount : Z) (db : Db) : Db :=
  with_users (alter (fun r => set_coins (coins r + amount) r) uid) db.

(** [deduct_coins], run without interruption: the SELECT, the comparison and
    the UPDATE. *)
Definition deduct_coins (uid : Z) (amount : Z) (db : Db) : bool * Db :=
  match users db !! uid with
  | None => (false, db)
  | Some row =>
      let current := coins row in
      if current <? amount then (false, db)
      else (true, with_users (alter (fun r => set_coins (coins r - amount) r) uid) db)
  end.

Definition refund_coins (uid : Z) (amount : Z) (db : Db) : Db := add_coins uid amount db.

(** [typ == "audio"] selects [music_count]; anything else, [None] included,
    selects [video_count]. *)
Definition increment_counter (uid : Z) (typ : option Kind) (db : Db) : Db :=
  match typ with
  | Some audio => with_users (alter (fun r => set_music_count (music_count r + 1) r) uid) db
  | _ => with_users (alter (fun r => set_video_count (video_count r + 1) r) uid) db
  end.

(** [CASE WHEN c > 0 THEN c - 1 ELSE 0 END] *)
Definition clamp_dec (c : Z) : Z := if 0 <? c then c - 1 else 0.

Definition decrement_counter (uid : Z) (typ : option Kind) (db : Db) : Db :=
  match typ with
  | Some audio => with_users (alter (fun r => set_music_count (clamp_dec (music_count r)) r) uid) db
  | _ => with_users (alter (fun r => set_video_count (clamp_dec (video_count r)) r) uid) db
  end.

(** [log_conversion]: the row takes the column defaults [status = 'done'],
    [refunded = 0]; rows are never deleted, so the AUTOINCREMENT key is the
    number of rows plus one. *)
Definition next_id (cs : list Conversion) : Z := Z.of_nat (length cs) + 1.

Definition log_conversion (uid : Z) (ttl : string) (typ : option Kind) (q c now : Z)
    (db : Db) : Z * Db :=
  let i := next_id (conversions db) in
  (i, with_conversions (fun cs => cs ++ [ {| id := i; user_id := uid; title := ttl;
        type := typ; quality := q; cost := c; created_at := now;
        status := Done; refunded := false |} ]) db).

(** [UPDATE conversions SET ... WHERE id = ?] *)
Definition update_where_id (conv_id : Z) (f : Conversion → Conversion)
    (cs : list Conversion) : list Conversion :=
  map (fun c => if id c =? conv_id then f c else c) cs.

Definition mark_conversion_refunded (conv_id : Z) (db : Db) : Db :=
  with_conversions (update_where_id conv_id (set_status Refunded true)) db.

Definition mark_conversion_failed (conv_id : Z) (db : Db) : Db :=
  with_conversions (update_where_id conv_id (fun c => set_status Failed (refunded c) c)) db.

Definition get_user_rate_info (uid : Z) (db : Db) : Z * option Z * option Stamp :=
  match users db !! uid with
  | Some row => (daily_count row, daily_count_date row, last_conversion_at row)
  | None => (0, None, None)
  end.

Definition bump_user_daily_count (uid : Z) (now : Z) (db : Db) : Db :=
  let today := today_utc8 now in
  match users db !! uid with
  | None =>
      let db1 := with_users (insert_or_ignore uid (new_user "" "" 0)) db in
      (* date_str = None != today *)
      with_users (alter (set_daily 1 (Some today)) uid) db1
  | Some row =>
      if decide (daily_count_date row = Some today)
      then with_users (alter (fun r => set_daily (daily_count r + 1) (daily_count_date r) r) uid) db
      else with_users (alter (set_daily 1 (Some today)) uid) db
  end.

Definition set_user_last_conversion (uid : Z) (now : Z) (db : Db) : Db :=
  with_users (alter (set_last_conversion_at (Some (Iso now))) uid) db.

(** *** Counters *)

Inductive CounterOp :=
| OpIncrement (uid : Z) (typ : option Kind)
| OpDecrement (uid : Z) (typ : option Kind).

Definition counter_op (o : CounterOp) (db : Db) : Db :=
  match o with
  | OpIncrement u t => increment_counter u t db
  | OpDecrement u t => decrement_counter u t db
  end.

Definition counter_ops (os : list CounterOp) (db : Db) : Db :=
  fold_left (fun d o => counter_op o d) os db.

Definition counters_nonneg (db : Db) : Prop :=
  ∀ uid row, users db !! uid = Some row → 0 ≤ music_count row ∧ 0 ≤ video_count row.

End Ledger.

Import Ledger.

Definition REGISTER_BONUS : Z := 500.

(** *** [deduct_coins] between its suspension points

    The coroutine awaits the SELECT, then awaits the UPDATE; each connection is
    its own, and nothing keeps a second call from running in between. *)

(** The UPDATE of [deduct_coins] alone. *)
Definition debit (uid amount : Z) (db : Db) : Db :=
  with_users (alter (fun r => set_coins (coins r - amount) r) uid) db.

Inductive DeductPc :=
| AtSelect                (* nothing read yet *)
| AtUpdate                (* passed [current < amount], UPDATE not yet issued *)
| Returned (ok : bool).

Definition deduct_step (uid amount : Z) (pc : DeductPc) (db : Db) : DeductPc * Db :=
  match pc with
  | AtSelect =>
      match users db !! uid with
      | None => (Returned false, db)
      | Some row => if coins row <? amount then (Returned false, db) else (AtUpdate, db)
      end
  | AtUpdate => (Returned true, debit uid amount db)
  | Returned ok => (Returned ok, db)
  end.

(** Two calls for the same owner; the schedule says which one moves next. *)
Inductive Who := first | second.

Definition two_step (uid amount : Z) (w : Who) (c : DeductPc * DeductPc * Db)
    : DeductPc * DeductPc * Db :=
  let '(p1, p2, db) := c in
  match w with
  | first => let '(p1', db') := deduct_step uid amount p1 db in (p1', p2, db')
  | second => let '(p2', db') := deduct_step uid amount p2 db in (p1, p2', db')
  end.

Definition two_deducts (uid amount : Z) (sched : list Who) (db : Db)
    : DeductPc * DeductPc * Db :=
  fold_left (fun c w => two_step uid amount w c) sched (AtSelect, AtSelect, db).

(** The schedules in which each call is run to completion before or after the
    other, and those in which they overlap. *)
Definition serial_schedules : list (list Who) :=
  [ [first; first; second; second]; [second; second; first; first] ].

Definition overlapping_schedules : list (list Who) :=
  [ [first; second; first; second]; [first; second; second; first];
    [second; first; first; second]; [second; first; second; first] ].

(** ** Transient flow state, transport and handlers *)

(** A [state] dict. The keys [from_user_id], [type_msg_id] and
    [quality_msg_id] are written and never read; they are left out. *)
Record FlowState := {
  st_title : option string;
  st_chat_id : option Z;
  st_type : option Kind;
  st_quality : option Z;
  st_cost : option Z;
  st_conversion_id : option Z;
  st_status_msg_id : option Z
}.

Definition empty_state : FlowState :=
  {| st_title := None; st_chat_id := None; st_type := None; st_quality := None;
     st_cost := None; st_conversion_id := None; st_status_msg_id := None |}.

Definition set_type (v : option Kind) (d : FlowState) : FlowState :=
  {| st_title := st_title d; st_chat_id := st_chat_id d; st_type := v;
     st_quality := st_quality d; st_cost := st_cost d;
     st_conversion_id := st_conversion_id d; st_status_msg_id := st_status_msg_id d |}.

Definition set_quality (v : option Z) (d : FlowState) : FlowState :=
  {| st_title := st_title d; st_chat_id := st_chat_id d; st_type := st_type d;
     st_quality := v; st_cost := st_cost d;
     st_conversion_id := st_conversion_id d; st_status_msg_id := st_status_msg_id d |}.

Definition set_cost (v : option Z) (d : FlowState) : FlowState :=
  {| st_title := st_title d; st_chat_id := st_chat_id d; st_type := st_type d;
     st_quality := st_quality d; st_cost := v;
     st_conversion_id := st_conversion_id d; st_status_msg_id := st_status_msg_id d |}.

Definition set_conversion_id (v : option Z) (d : FlowState) : FlowState :=
  {| st_title := st_title d; st_chat_id := st_chat_id d; st_type := st_type d;
     st_quality := st_quality d; st_cost := st_cost d;
     st_conversion_id := v; st_status_msg_id := st_status_msg_id d |}.

Definition set_status_msg_id (v : option Z) (d : FlowState) : FlowState :=
  {| st_title := st_title d; st_chat_id := st_chat_id d; st_type := st_type d;
     st_quality := st_quality d; st_cost := st_cost d;
     st_conversion_id := st_conversion_id d; st_status_msg_id := v |}.

(** The texts the program sends, by their template and parameters. *)
Inductive Notice :=
| AlreadyRegistered
| Registered (bonus : Z)
| OtherReply
| SelectType (title : string)
| SelectQuality (typ : Kind)
| DailyLimitReached (limit : Z)
| TooFrequent (wait : Z)
| InsufficientCoins (cost : Z)
| StatusQueued (title : option string)
| QueuedNotice
| StatusStarting (title : option string)
| StatusFinished (title : string)
| RefundedNotice (cost : Z)
| RefundFailedNotice
| StatusError (title : string) (diag : string)
| ConversionFailed (diag : string).

Inductive Call :=
| send_message (chat_id : Z) (n : Notice)
| edit_message_text (chat_id : option Z) (message_id : option Z) (n : Notice)
| delete_message (chat_id : Z) (message_id : option Z)
| send_document (chat_id : Z) (title : string) (path : string).

(** The payload dict [{"state": state}]: [job_no] is the identity of the
    payload (a new dict literal for every admission), [job_state] the address
    of the state dict it refers to. *)
Record Job := { job_no : nat; job_state : nat }.

(** [progress] as [blocking_download_and_process] leaves it ([done] is set on
    both paths before the finaliser is scheduled; [percent] and [info] only
    feed the rendering of texts). *)
Record Progress := { filepath : option string; status_text : string }.

(** The coroutine [async_finalize_and_update(progress, state, user_id, app)]
    handed to [loop.create_task]. *)
Record Finalizer := { fin_progress : Progress; fin_state : nat; fin_user : Z }.

(** Where a [user_queue_worker] task stands. *)
Inductive Pc :=
| Created                          (* [create_task] done, body not entered *)
| AwaitGate (q : nat) (job : Job)  (* dequeued [job], waiting in [async with global_semaphore] *)
| InGate (q : nat) (job : Job)     (* holds a unit: the conversion runs in the executor *)
| Finished.                        (* returned or raised: [done()] *)

Record Task := { task_user : Z; task_pc : Pc }.

(** What an observer of the queues sees. *)
Inductive Obs :=
| Submitted (uid : Z) (job : Job)
| Started (uid : Z) (job : Job)
| Converted (uid : Z) (job : Job).

(** The queueing globals: [user_queues], [user_queue_tasks],
    [global_semaphore], with the queue and task objects they refer to. *)
Record Sched := {
  queue_heap : list (list Job);       (* the [asyncio.Queue] objects, by address *)
  user_queues : gmap Z nat;
  task_heap : list Task;              (* the worker tasks, by address *)
  user_queue_tasks : gmap Z nat;
  global_semaphore : nat;             (* free units *)
  journal : list Obs
}.

Record Sys := {
  db : Db;
  outbox : list (Call * bool);        (* calls issued, and whether the transport accepted *)
  heap : gmap nat FlowState;          (* the state dicts, by address *)
  heap_next : nat;                    (* the address of the next dict *)
  user_state : gmap Z nat;
  sched : Sched;
  finalizers : list (option Finalizer); (* finaliser tasks; [None] once run *)
  payloads : nat                      (* payload dicts allocated so far *)
}.

Definition init_sched (cfg : Config) : Sched :=
  {| queue_heap := []; user_queues := ∅; task_heap := []; user_queue_tasks := ∅;
     global_semaphore := GLOBAL_CONCURRENCY cfg; journal := [] |}.

Definition init (cfg : Config) : Sys :=
  {| db := empty_db; outbox := []; heap := ∅; heap_next := 0; user_state := ∅;
     sched := init_sched cfg; finalizers := []; payloads := 0 |}.

(** Field updates of [Sched]. *)
Definition with_queue_heap (f : list (list Job) → list (list Job)) (c : Sched) : Sched :=
  {| queue_heap := f (queue_heap c); user_queues := user_queues c;
     task_heap := task_heap c; user_queue_tasks := user_queue_tasks c;
     global_semaphore := global_semaphore c; journal := journal c |}.

Definition with_user_queues (f : gmap Z nat → gmap Z nat) (c : Sched) : Sched :=
  {| queue_heap := queue_heap c; user_queues := f (user_queues c);
     task_heap := task_heap c; user_queue_tasks := user_queue_tasks c;
     global_semaphore := global_semaphore c; journal := journal c |}.

Definition with_task_heap (f : list Task → list Task) (c : Sched) : Sched :=
  {| queue_heap := queue_heap c; user_queues := user_queues c;
     task_heap := f (task_heap c); user_queue_tasks := user_queue_tasks c;
     global_semaphore := global_semaphore c; journal := journal c |}.

Definition with_user_queue_tasks (f : gmap Z nat → gmap Z nat) (c : Sched) : Sched :=
  {| queue_heap := queue_heap c; user_queues := user_queues c;
     task_heap := task_heap c; user_queue_tasks := f (user_queue_tasks c);
     global_semaphore := global_semaphore c; journal := journal c |}.

Definition with_global_semaphore (f : nat → nat) (c : Sched) : Sched :=
  {| queue_heap := queue_heap c; user_queues := user_queues c;
     task_heap := task_heap c; user_queue_tasks := user_queue_tasks c;
     global_semaphore := f (global_semaphore c); journal := journal c |}.

Definition with_journal (f : list Obs → list Obs) (c : Sched) : Sched :=
  {| queue_heap := queue_heap c; user_queues := user_queues c;
     task_heap := task_heap c; user_queue_tasks := user_queue_tasks c;
     global_semaphore := global_semaphore c; journal := f (journal c) |}.

(** Field updates of [Sys]. *)
Definition with_db (f : Db → Db) (s : Sys) : Sys :=
  {| db := f (db s); outbox := outbox s; heap := heap s; heap_next := heap_next s;
     user_state := user_state s; sched := sched s; finalizers := finalizers s;
     payloads := payloads s |}.

Definition with_outbox (f : list (Call * bool) → list (Call * bool)) (s : Sys) : Sys :=
  {| db := db s; outbox := f (outbox s); heap := heap s; heap_next := heap_next s;
     user_state := user_state s; sched := sched s; finalizers := finalizers s;
     payloads := payloads s |}.

Definition with_heap (f : gmap nat FlowState → gmap nat FlowState) (s : Sys) : Sys :=
  {| db := db s; outbox := outbox s; heap := f (heap s); heap_next := heap_next s;
     user_state := user_state s; sched := sched s; finalizers := finalizers s;
     payloads := payloads s |}.

Definition with_heap_next (f : nat → nat) (s : Sys) : Sys :=
  {| db := db s; outbox := outbox s; heap := heap s; heap_next := f (heap_next s);
     user_state := user_state s; sched := sched s; finalizers := finalizers s;
     payloads := payloads s |}.

Definition with_user_state (f : gmap Z nat → gmap Z nat) (s : Sys) : Sys :=
  {| db := db s; outbox := outbox s; heap := heap s; heap_next := heap_next s;
     user_state := f (user_state s); sched := sched s; finalizers := finalizers s;
     payloads := payloads s |}.

Definition with_sched (f : Sched → Sched) (s : Sys) : Sys :=
  {| db := db s; outbox := outbox s; heap := heap s; heap_next := heap_next s;
     user_state := user_state s; sched := f (sched s); finalizers := finalizers s;
     payloads := payloads s |}.

Definition with_finalizers (f : list (option Finalizer) → list (option Finalizer)) (s : Sys) : Sys :=
  {| db := db s; outbox := outbox s; heap := heap s; heap_next := heap_next s;
     user_state := user_state s; sched := sched s; finalizers := f (finalizers s);
     payloads := payloads s |}.

Definition with_payloads (f : nat → nat) (s : Sys) : Sys :=
  {| db := db s; outbox := outbox s; heap := heap s; heap_next := heap_next s;
     user_state := user_state s; sched := sched s; finalizers := finalizers s;
     payloads := f (payloads s) |}.

(** *** Transport *)

Definition call (c : Call) (accepted : bool) (s : Sys) : Sys :=
  with_outbox (fun o => o ++ [(c, accepted)]) s.

(** The [message_id] the transport gives to the next message. *)
Definition next_message_id (s : Sys) : Z := Z.of_nat (length (outbox s)).

(** *** State dicts *)

Definition state_at (a : nat) (s : Sys) : FlowState := default empty_state (heap s !! a).

(** [state[key] = value] on the dict at address [a]. *)
Definition store (a : nat) (f : FlowState → FlowState) (s : Sys) : Sys :=
  with_heap (<[a := f (state_at a s)]>) s.

(** A new dict object. *)
Definition alloc (d : FlowState) (s : Sys) : nat * Sys :=
  (heap_next s, with_heap_next S (with_heap (<[heap_next s := d]>) s)).

(** [state = user_state.get(user_id, {})] *)
Definition get_state (uid : Z) (s : Sys) : nat * Sys :=
  match user_state s !! uid with
  | Some a => (a, s)
  | None => alloc empty_state s
  end.

(** [user_state.pop(user_id, None)] *)
Definition pop_user_state (uid : Z) (s : Sys) : Sys := with_user_state (delete uid) s.

(** *** Queues and workers: [enqueue_user_conversion], [user_queue_worker]

    The worker coroutine is cut at its suspension points: entering the body
    ([worker_start]), the head of the [while] loop ([worker_loop]), the
    acquisition of the semaphore ([enter_gate]) and the return of
    [run_in_executor] ([leave_gate]). [q.put] and [q.get] on an unbounded,
    non-empty queue do not suspend. *)

Definition queue_at (q : nat) (c : Sched) : list Job := default [] (queue_heap c !! q).

(** [task.done()] *)
Definition is_done (t : nat) (c : Sched) : bool :=
  match task_heap c !! t with
  | Some {| task_pc := Finished |} => true
  | _ => false
  end.

Definition set_pc (t : nat) (pc : Pc) (c : Sched) : Sched :=
  with_task_heap (alter (fun k => {| task_user := task_user k; task_pc := pc |}) t) c.

Definition observe (o : Obs) (c : Sched) : Sched := with_journal (fun j => j ++ [o]) c.

(** [user_queue_tasks[user_id] = asyncio.create_task(user_queue_worker(user_id))] *)
Definition create_worker (uid : Z) (c : Sched) : Sched :=
  let t := length (task_heap c) in
  with_user_queue_tasks (<[uid := t]>)
    (with_task_heap (fun h => h ++ [ {| task_user := uid; task_pc := Created |} ]) c).

(** [if user_id not in user_queues: user_queues[user_id] = asyncio.Queue()] *)
Definition ensure_queue (uid : Z) (c : Sched) : Sched :=
  match user_queues c !! uid with
  | Some _ => c
  | None =>
      with_user_queues (<[uid := length (queue_heap c)]>)
        (with_queue_heap (fun h => h ++ [ [] ]) c)
  end.

(** [await user_queues[user_id].put(job_payload)] *)
Definition put (uid : Z) (job : Job) (c : Sched) : Sched :=
  match user_queues c !! uid with
  | Some q => with_queue_heap (<[q := queue_at q c ++ [job]]>) c
  | None => c
  end.

(** [if user_id not in user_queue_tasks or user_queue_tasks[user_id].done(): ...] *)
Definition ensure_worker (uid : Z) (c : Sched) : Sched :=
  match user_queue_tasks c !! uid with
  | Some t => if is_done t c then create_worker uid c else c
  | None => create_worker uid c
  end.

Definition enqueue_user_conversion (uid : Z) (job : Job) (c : Sched) : Sched :=
  ensure_worker uid (observe (Submitted uid job) (put uid job (ensure_queue uid c))).

(** The head of [while not q.empty()], up to the next suspension: either a job
    is taken and the task goes to wait for the gate, or the task cleans up and
    returns. *)
Definition worker_loop (t : nat) (uid : Z) (q : nat) (c : Sched) : Sched :=
  match queue_at q c with
  | job :: rest =>
      let c := with_queue_heap (<[q := rest]>) c in
      set_pc t (AwaitGate q job) c
  | [] =>
      let c := with_user_queue_tasks (delete uid) c in
      let c := with_user_queues (delete uid) c in
      set_pc t Finished c
  end.

(** The task enters its body: [q = user_queues[user_id]]. *)
Definition worker_start (t : nat) (c : Sched) : Sched :=
  match task_heap c !! t with
  | Some {| task_user := uid; task_pc := Created |} =>
      match user_queues c !! uid with
      | Some q => worker_loop t uid q c
      | None => set_pc t Finished c
      end
  | _ => c
  end.

(** [async with global_semaphore:] is entered when a unit is free. [keys]
    tells whether the thread found the keys it subscripts; when it did not,
    the [KeyError] leaves the block at once: the unit goes back and the task
    ends without cleaning up. *)
Definition enter_gate (t : nat) (keys : bool) (c : Sched) : Sched :=
  match task_heap c !! t with
  | Some {| task_user := uid; task_pc := AwaitGate q job |} =>
      match global_semaphore c with
      | O => c
      | S n =>
          let c := with_global_semaphore (fun _ => n) c in
          let c := observe (Started uid job) c in
          if keys then set_pc t (InGate q job) c
          else
            let c := with_global_semaphore S c in
            let c := observe (Converted uid job) c in
            set_pc t Finished c
      end
  | _ => c
  end.

(** [run_in_executor] is over: the unit goes back on every path; then
    [q.task_done()] and the loop, or the exception ends the task. *)
Definition leave_gate (t : nat) (returned : bool) (c : Sched) : Sched :=
  match task_heap c !! t with
  | Some {| task_user := uid; task_pc := InGate q job |} =>
      let c := with_global_semaphore S c in
      let c := observe (Converted uid job) c in
      if returned then worker_loop t uid q c else set_pc t Finished c
  | _ => c
  end.


(** *** Text messages: [handle_start_text] and [start_search_flow] *)

(** The texts the handler tells apart: [register]; [check], [history ...] and
    texts holding a YouTube URL, which are answered and change nothing else;
    any other text is a title. *)
Inductive Text := TxtRegister | TxtOther | TxtTitle (t : string).

Definition set_registered (bonus now : Z) (r : User) : User :=
  {| username := username r; fullname := fullname r; coins := coins r + bonus;
     music_count := music_count r; video_count := video_count r;
     registered_at := Some now; last_daily_date := last_daily_date r;
     daily_count := daily_count r; daily_count_date := daily_count_date r;
     last_conversion_at := last_conversion_at r |}.

Definition start_search_flow (uid chat_id message_id : Z) (text : string) (s : Sys) : Sys :=
  if String.eqb text "" then s
  else
    let '(a, s) := alloc {| st_title := Some text; st_chat_id := Some chat_id;
                            st_type := None; st_quality := None; st_cost := None;
                            st_conversion_id := None; st_status_msg_id := None |} s in
    let s := with_user_state (<[uid := a]>) s in
    let s := call (delete_message chat_id (Some message_id)) true s in
    call (send_message chat_id (SelectType text)) true s.

Definition handle_start_text (uid chat_id message_id : Z) (uname fname : string)
    (text : Text) (now : Z) (s : Sys) : Sys :=
  let s := with_db (create_or_update_user uid uname fname 0) s in
  match text with
  | TxtRegister =>
      match get_user uid (db s) with
      | Some {| registered_at := Some _ |} =>
          call (send_message chat_id AlreadyRegistered) true s
      | _ =>
          let s := with_db (with_users (alter (set_registered REGISTER_BONUS now) uid)) s in
          call (send_message chat_id (Registered REGISTER_BONUS)) true s
      end
  | TxtOther => call (send_message chat_id OtherReply) true s
  | TxtTitle t => start_search_flow uid chat_id message_id t s
  end.

(** *** Button clicks: [callback_router] *)

(** The [type:] branch. *)
Definition callback_type (uid chat_id message_id : Z) (typ : Kind) (s : Sys) : Sys :=
  let '(a, s) := get_state uid s in
  let s := call (delete_message chat_id (Some message_id)) true s in
  let s := store a (set_type (Some typ)) s in
  let s := with_user_state (<[uid := a]>) s in
  call (send_message chat_id (SelectQuality typ)) true s.

(** The clock readings of one admission, in the order they are taken:
    [today] of the rate check, [utcnow] of the cooldown check, [today] of
    [bump_user_daily_count], [utcnow] of [set_user_last_conversion] and
    [utcnow] of [log_conversion]. *)
Record Clock := {
  now_check : Z;
  now_cooldown : Z;
  now_bump : Z;
  now_stamp : Z;
  now_log : Z
}.

Inductive Outcome :=
| Accepted (conv_id : Z)
| DailyLimitExceeded
| Cooldown (wait : Z)
| InsufficientFunds.

(** The count the rate check compares: zero when the stored date is not today. *)
Definition effective_daily_count (daily_count : Z) (daily_date : option Z) (today : Z) : Z :=
  if decide (daily_date = Some today) then daily_count else 0.

(** The cooldown check: [Some wait] when the request is refused. A text that
    cannot be parsed (or subtracted) raises inside the [try] and the request is
    let through. *)
Definition cooldown_wait (cfg : Config) (last_conv : option Stamp) (now : Z) : option Z :=
  match last_conv with
  | Some (Iso last_ts) =>
      let elapsed := now - last_ts in
      if elapsed <? COOLDOWN_SECONDS cfg * MICRO
      then Some (Z.quot (COOLDOWN_SECONDS cfg * MICRO - elapsed) MICRO)
      else None
  | Some Garbled => None
  | None => None
  end.

Definition cost_of (typ : option Kind) (kval : Z) : Z :=
  match typ with
  | Some audio => AUDIO_COSTS kval
  | _ => VIDEO_COSTS kval
  end.

(** The [audioq:] / [videoq:] branch, first part: the choice is written into
    the state dict and the cost is computed. The prefix of the callback data
    plays no part: the cost table is chosen by [state.get("type")]. *)
Definition select_quality (uid chat_id message_id kval : Z) (s : Sys) : nat * Z * Sys :=
  let '(a, s) := get_state uid s in
  let s := call (delete_message chat_id (Some message_id)) true s in
  let s := store a (set_quality (Some kval)) s in
  let s := with_user_state (<[uid := a]>) s in
  let cost := cost_of (st_type (state_at a s)) kval in
  (a, cost, store a (set_cost (Some cost)) s).

(** The rate-limit checks: the refusal and its text, if any. *)
Definition rate_limit_checks (cfg : Config) (uid : Z) (clk : Clock) (db : Db)
    : option (Outcome * Notice) :=
  let '(daily_count, daily_date, last_conv) := get_user_rate_info uid db in
  let today := today_utc8 (now_check clk) in
  let daily_count := effective_daily_count daily_count daily_date today in
  if DAILY_LIMIT_PER_USER cfg <=? daily_count
  then Some (DailyLimitExceeded, DailyLimitReached (DAILY_LIMIT_PER_USER cfg))
  else
    match cooldown_wait cfg last_conv (now_cooldown clk) with
    | Some wait => Some (Cooldown wait, TooFrequent wait)
    | None => None
    end.

(** [send_message(...); user_state.pop(user_id, None); return] *)
Definition refuse (uid chat_id : Z) (n : Notice) (s : Sys) : Sys :=
  pop_user_state uid (call (send_message chat_id n) true s).

(** After the debit: [bump_user_daily_count], [set_user_last_conversion],
    [increment_counter], [log_conversion]. *)
Definition book (uid : Z) (ttl : string) (typ : option Kind) (kval cost : Z) (clk : Clock)
    (db : Db) : Z * Db :=
  log_conversion uid ttl typ kval cost (now_log clk)
    (increment_counter uid typ
       (set_user_last_conversion uid (now_stamp clk)
          (bump_user_daily_count uid (now_bump clk) db))).

(** The status message, and the job put on the owner's queue. *)
Definition queue_job (uid chat_id : Z) (a : nat) (conv_id : Z) (s : Sys) : Sys :=
  let s := store a (set_conversion_id (Some conv_id)) s in
  let status_msg := next_message_id s in
  let s := call (send_message chat_id (StatusQueued (st_title (state_at a s)))) true s in
  let s := store a (set_status_msg_id (Some status_msg)) s in
  let s := with_user_state (<[uid := a]>) s in
  let job := {| job_no := payloads s; job_state := a |} in
  let s := with_payloads S s in
  let s := with_sched (enqueue_user_conversion uid job) s in
  call (send_message chat_id QueuedNotice) true s.

(** The [audioq:] / [videoq:] branch: admission. *)
Definition callback_quality (cfg : Config) (uid chat_id message_id kval : Z) (clk : Clock)
    (s : Sys) : Outcome * Sys :=
  let '(a, cost, s) := select_quality uid chat_id message_id kval s in
  match rate_limit_checks cfg uid clk (db s) with
  | Some (o, n) => (o, refuse uid chat_id n s)
  | None =>
      let '(ok, db1) := deduct_coins uid cost (db s) in
      if negb ok then (InsufficientFunds, refuse uid chat_id (InsufficientCoins cost) s)
      else
        let d := state_at a s in
        let '(conv_id, db2) :=
          book uid (default "(unknown)"%string (st_title d)) (st_type d) kval cost clk db1 in
        (Accepted conv_id, queue_job uid chat_id a conv_id (with_db (fun _ => db2) s))
  end.

(** *** The worker and the conversion thread

    [application_instance] is set by [main] before any handler runs, so the
    branch [if not app] is never taken; the [else] branch is modelled. Calls
    whose failure the program ignores ([try ... except: pass]) are logged as
    accepted. *)

(** The keys [blocking_download_and_process] subscripts on entry. *)
Definition has_job_keys (d : FlowState) : bool :=
  match st_chat_id d, st_title d, st_type d, st_quality d, st_cost d with
  | Some _, Some _, Some _, Some _, Some _ => true
  | _, _, _, _, _ => false
  end.

(** The task [t] runs from where it is suspended to its next suspension. *)
Definition worker_run (t : nat) (s : Sys) : Sys :=
  match task_heap (sched s) !! t with
  | Some {| task_pc := Created |} => with_sched (worker_start t) s
  | Some {| task_pc := AwaitGate q job |} =>
      match global_semaphore (sched s) with
      | O => s
      | S _ =>
          let d := state_at (job_state job) s in
          let s := call (edit_message_text (st_chat_id d) (st_status_msg_id d)
                           (StatusStarting (st_title d))) true s in
          with_sched (enter_gate t (has_job_keys d)) s
      end
  | _ => s
  end.

(** How the call in the executor ends. *)
Inductive Production :=
| Produced (path : string) (status : string)  (* yt-dlp returned *)
| ProductionError (e : string)                (* yt-dlp raised [e], caught *)
| ThreadRaised.                               (* an exception outside the [try] *)

Definition progress_of (r : Production) : option Progress :=
  match r with
  | Produced path txt => Some {| filepath := Some path; status_text := txt |}
  | ProductionError e => Some {| filepath := None; status_text := ("Error: " ++ e)%string |}
  | ThreadRaised => None
  end.

(** The end of [blocking_download_and_process]: the finaliser is handed to
    [loop.create_task] and the thread returns. *)
Definition blocking_download_and_process (r : Production) (a : nat) (uid : Z) (s : Sys)
    : bool * Sys :=
  match progress_of r with
  | Some p =>
      (true, with_finalizers (fun l =>
               l ++ [Some {| fin_progress := p; fin_state := a; fin_user := uid |}]) s)
  | None => (false, s)
  end.

(** [run_in_executor] of task [t] completes. *)
Definition conversion_done (t : nat) (r : Production) (s : Sys) : Sys :=
  match task_heap (sched s) !! t with
  | Some {| task_user := uid; task_pc := InGate q job |} =>
      let '(returned, s) := blocking_download_and_process r (job_state job) uid s in
      with_sched (leave_gate t returned) s
  | _ => s
  end.


(** *** The finaliser: [async_finalize_and_update] *)

(** Computations that may raise: [None] is a propagating exception. *)
Definition M (A : Type) : Type := Sys → option A * Sys.

Definition ret {A} (x : A) : M A := fun s => (Some x, s).

Definition bind {A B} (m : M A) (k : A → M B) : M B :=
  fun s => match m s with
           | (Some x, s') => k x s'
           | (None, s') => (None, s')
           end.

Declare Scope exn_scope.
Delimit Scope exn_scope with exn.
Notation "m ;; k" := (bind m (fun _ => k))
  (at level 100, k at level 200, right associativity) : exn_scope.
Open Scope exn_scope.

(** [try: m except Exception: h] *)
Definition try_except (m h : M unit) : M unit :=
  fun s => match m s with
           | (Some x, s') => (Some x, s')
           | (None, s') => h s'
           end.

(** [try: m except Exception: pass] *)
Definition ignoring (m : M unit) : M unit := try_except m (ret tt).

(** [try: m finally: f], for an [f] that does not raise. *)
Definition try_finally (m : M unit) (f : Sys → Sys) : M unit :=
  fun s => let '(r, s') := m s in (r, f s').

(** A store helper that returns, or raises before it commits. *)
Definition store_op (ok : bool) (f : Db → Db) : M unit :=
  fun s => if ok then (Some tt, with_db f s) else (None, s).

(** A transport call that is accepted, or raises. *)
Definition transport (c : Call) (ok : bool) : M unit :=
  fun s => (if ok then Some tt else None, call c ok s).

Definition when (b : bool) (m : M unit) : M unit := if b then m else ret tt.

(** What the environment answers to the finaliser. *)
Record FinEnv := {
  file_exists : bool;     (* [Path(progress["filepath"]).exists()] *)
  document_sent : bool;   (* [open] and [send_document] returned *)
  refund_ok : bool;       (* [refund_coins] returned *)
  decrement_ok : bool;    (* [decrement_counter] returned *)
  mark_ok : bool;         (* [mark_conversion_refunded] / [mark_conversion_failed] returned *)
  notice_ok : bool;       (* the refund notice was accepted *)
  alarm_ok : bool;        (* the refund-failed notice was accepted *)
  edit_ok : bool;         (* the error edit of the status message was accepted *)
  fallback_ok : bool      (* the [Conversion failed] message was accepted *)
}.

(** [if conv_id:] *)
Definition truthy (conv_id : option Z) : option Z :=
  match conv_id with
  | Some i => if i =? 0 then None else Some i
  | None => None
  end.

Definition deliver (env : FinEnv) (uid chat_id cost : Z) (status_msg_id : option Z)
    (title path : string) (typ : option Kind) (conv_id : option Z) : M unit :=
  ignoring (transport (edit_message_text (Some chat_id) status_msg_id (StatusFinished title)) true) ;;
  try_except
    (transport (send_document chat_id title path) (document_sent env))
    (try_except
       (store_op (refund_ok env) (refund_coins uid cost) ;;
        store_op (decrement_ok env) (decrement_counter uid typ) ;;
        match truthy conv_id with
        | Some i => store_op (mark_ok env) (mark_conversion_refunded i)
        | None => ret tt
        end ;;
        transport (send_message chat_id (RefundedNotice cost)) (notice_ok env))
       (transport (send_message chat_id RefundFailedNotice) (alarm_ok env))).

Definition conversion_failed (env : FinEnv) (uid chat_id cost : Z) (status_msg_id : option Z)
    (title diag : string) (typ : option Kind) (conv_id : option Z) : M unit :=
  match truthy conv_id with
  | Some i => store_op (mark_ok env) (mark_conversion_failed i)
  | None => ret tt
  end ;;
  ignoring
    (store_op (refund_ok env) (refund_coins uid cost) ;;
     store_op (decrement_ok env) (decrement_counter uid typ)) ;;
  try_except
    (transport (edit_message_text (Some chat_id) status_msg_id (StatusError title diag)) (edit_ok env))
    (transport (send_message chat_id (ConversionFailed diag)) (fallback_ok env)).

(** The coroutine. [progress["done"]] is already set when it is created, so
    the polling loop is not entered. [state["chat_id"]] raises before the
    [try] when the key is missing. [cost] is present in every state that
    passed [blocking_download_and_process]; the NULL arithmetic SQLite would
    do for a missing one is not modelled and the coroutine is taken to
    raise. *)
Definition async_finalize_and_update (env : FinEnv) (progress : Progress) (a : nat) (uid : Z)
    : M unit :=
  fun s =>
    let d := state_at a s in
    match st_chat_id d, st_cost d with
    | Some chat_id, Some cost =>
        let status_msg_id := st_status_msg_id d in
        let title := default "(unknown)"%string (st_title d) in
        let typ := st_type d in
        let conv_id := st_conversion_id d in
        try_finally
          (match filepath progress with
           | Some path =>
               if file_exists env
               then deliver env uid chat_id cost status_msg_id title path typ conv_id
               else conversion_failed env uid chat_id cost status_msg_id title
                      (status_text progress) typ conv_id
           | None =>
               conversion_failed env uid chat_id cost status_msg_id title
                 (status_text progress) typ conv_id
           end)
          (fun s' => pop_user_state uid (call (delete_message chat_id status_msg_id) true s'))
          s
    | _, _ => (None, s)
    end.

(** The finaliser task [f] runs. *)
Definition finalizer_run (f : nat) (env : FinEnv) (s : Sys) : Sys :=
  match finalizers s !! f with
  | Some (Some fin) =>
      let s := with_finalizers (fun l => <[f := None]> l) s in
      snd (async_finalize_and_update env (fin_progress fin) (fin_state fin) (fin_user fin) s)
  | _ => s
  end.


(** ** The event loop *)

Inductive Event :=
| EvText (uid chat_id message_id : Z) (uname fname : string) (text : Text) (now : Z)
| EvType (uid chat_id message_id : Z) (typ : Kind)
| EvQuality (uid chat_id message_id kval : Z) (clk : Clock)
| EvWorker (t : nat)
| EvConverted (t : nat) (r : Production)
| EvFinalize (f : nat) (env : FinEnv).

Definition step (cfg : Config) (e : Event) (s : Sys) : Sys :=
  match e with
  | EvText uid chat_id message_id uname fname text now =>
      handle_start_text uid chat_id message_id uname fname text now s
  | EvType uid chat_id message_id typ => callback_type uid chat_id message_id typ s
  | EvQuality uid chat_id message_id kval clk =>
      snd (callback_quality cfg uid chat_id message_id kval clk s)
  | EvWorker t => worker_run t s
  | EvConverted t r => conversion_done t r s
  | EvFinalize f env => finalizer_run f env s
  end.

Definition run (cfg : Config) (evs : list Event) (s : Sys) : Sys :=
  fold_left (fun s e => step cfg e s) evs s.

(** ** Sample data *)

(** An account as [create_or_update_user] makes it. *)
Definition one_account : Db := create_or_update_user 7 "ana" "Ana" 0 empty_db.

(** An account holding exactly the cost of one 128 kbps audio job. *)
Definition exact_balance : Db := create_or_update_user 7 "ana" "Ana" 20 empty_db.

(** All clock readings of an admission taken at the same instant. *)
Definition at_time (t : Z) : Clock :=
  {| now_check := t; now_cooldown := t; now_bump := t; now_stamp := t; now_log := t |}.

(** A store and a transport that answer every call of the finaliser. *)
Definition all_ok : FinEnv :=
  {| file_exists := true; document_sent := true; refund_ok := true; decrement_ok := true;
     mark_ok := true; notice_ok := true; alarm_ok := true; edit_ok := true;
     fallback_ok := true |}.

(** The counter [increment_counter] and [decrement_counter] select. *)
Definition counter_of (typ : option Kind) (r : User) : Z :=
  match typ with
  | Some audio => music_count r
  | _ => video_count r
  end.

(** The state dict a click of [uid] would work on, and the cost it would be
    quoted. *)
Definition pending_type (uid : Z) (s : Sys) : option Kind :=
  match user_state s !! uid with
  | Some a => st_type (state_at a s)
  | None => None
  end.

Definition price (uid kval : Z) (s : Sys) : Z := cost_of (pending_type uid s) kval.

(** User 7 sent a title and chose audio without ever registering: the account
    exists and holds no coins. *)
Definition broke : Sys :=
  run default_config
    [ EvText 7 7 1 "ana" "Ana" (TxtTitle "song") 1000000; EvType 7 7 2 audio ]
    (init default_config).

(** User 7 registered (500 coins), sent a title and chose audio. *)
Definition ready : Sys :=
  run default_config
    [ EvText 7 7 1 "ana" "Ana" TxtRegister 0;
      EvText 7 7 2 "ana" "Ana" (TxtTitle "song") 1000000;
      EvType 7 7 3 audio ]
    (init default_config).

(** The title an admission of [uid] would log. *)
Definition pending_title (uid : Z) (s : Sys) : option string :=
  match user_state s !! uid with
  | Some a => st_title (state_at a s)
  | None => None
  end.

(** The test [progress.get("filepath") and Path(progress["filepath"]).exists()]. *)
Definition produced (env : FinEnv) (p : Progress) : bool :=
  match filepath p with
  | Some _ => file_exists env
  | None => false
  end.

(** User 7's request for 128 kbps audio, admitted at second 2: conversion 1,
    20 coins. *)
Definition queued : Sys :=
  snd (callback_quality default_config 7 7 4 128 (at_time 2000000) ready).

(** [progress] after yt-dlp raised. *)
Definition crashed : Progress := {| filepath := None; status_text := "Error: boom" |}.

(** [progress] after yt-dlp returned. *)
Definition downloaded : Progress :=
  {| filepath := Some "/tmp/x/song.mp3"%string; status_text := "Post-processing..." |}.

(** The transport refuses the document; everything else answers. *)
Definition send_fails : FinEnv :=
  {| file_exists := true; document_sent := false; refund_ok := true; decrement_ok := true;
     mark_ok := true; notice_ok := true; alarm_ok := true; edit_ok := true;
     fallback_ok := true |}.

(** *** The lifecycle as the specification words it *)





(** ** Observations on the scheduler *)

(** What one event does to the queueing globals. *)
Inductive Act :=
| ActEnqueue (uid : Z) (job : Job)
| ActStart (t : nat)
| ActEnter (t : nat) (keys : bool)
| ActLeave (t : nat) (returned : bool).

Definition act (x : Act) (c : Sched) : Sched :=
  match x with
  | ActEnqueue uid job => enqueue_user_conversion uid job c
  | ActStart t => worker_start t c
  | ActEnter t keys => enter_gate t keys c
  | ActLeave t returned => leave_gate t returned c
  end.

Definition in_gate_pc (pc : Pc) : bool :=
  match pc with
  | InGate _ _ => true
  | _ => false
  end.

(** The number of workers inside [async with global_semaphore], that is, of
    jobs whose conversion is running. *)
Definition in_gate (ts : list Task) : nat :=
  length (filter (fun k => in_gate_pc (task_pc k) = true) ts).

Arguments in_gate : simpl never.

Definition live (k : Task) : Prop := task_pc k ≠ Finished.

(** The jobs of [uid] in the journal, by kind of entry. *)
Definition submitted (uid : Z) (j : list Obs) : list Job :=
  omap (fun o => match o with
                 | Submitted u job => if decide (u = uid) then Some job else None
                 | _ => None
                 end) j.

Definition started (uid : Z) (j : list Obs) : list Job :=
  omap (fun o => match o with
                 | Started u job => if decide (u = uid) then Some job else None
                 | _ => None
                 end) j.

Definition converted (uid : Z) (j : list Obs) : list Job :=
  omap (fun o => match o with
                 | Converted u job => if decide (u = uid) then Some job else None
                 | _ => None
                 end) j.

(** The job the owner's registered worker holds while it waits for the gate,
    the job it holds inside the gate, and the jobs on the owner's queue. *)
Definition waiting (uid : Z) (c : Sched) : list Job :=
  match user_queue_tasks c !! uid with
  | Some t =>
      match task_heap c !! t with
      | Some {| task_pc := AwaitGate _ job |} => [job]
      | _ => []
      end
  | None => []
  end.

Definition running (uid : Z) (c : Sched) : list Job :=
  match user_queue_tasks c !! uid with
  | Some t =>
      match task_heap c !! t with
      | Some {| task_pc := InGate _ job |} => [job]
      | _ => []
      end
  | None => []
  end.

Definition on_queue (uid : Z) (c : Sched) : list Job :=
  match user_queues c !! uid with
  | Some q => queue_at q c
  | None => []
  end.


(** A computation of the finaliser that leaves a component of the system
    alone. *)
Definition keeps {A B} (proj : Sys → A) (m : M B) : Prop :=
  ∀ s, proj (snd (m s)) = proj s.

(** What holds of the queueing globals in every state the program reaches:
    the registries and the objects they refer to fit together, and the journal
    fits the queues and the workers. *)
Record struct_inv (c : Sched) : Prop := {
  inv_live : ∀ t k, task_heap c !! t = Some k → live k →
             user_queue_tasks c !! task_user k = Some t;
  inv_reg : ∀ u t, user_queue_tasks c !! u = Some t →
            ∃ k, task_heap c !! t = Some k ∧ task_user k = u;
  inv_qaddr : ∀ u q, user_queues c !! u = Some q → (q < length (queue_heap c))%nat;
  inv_qinj : ∀ u u' q, user_queues c !! u = Some q → user_queues c !! u' = Some q → u = u';
  inv_holds : ∀ t k q job, task_heap c !! t = Some k →
              task_pc k = AwaitGate q job ∨ task_pc k = InGate q job →
              user_queues c !! task_user k = Some q
}.

Record sched_inv (c : Sched) : Prop := {
  inv_struct : struct_inv c;
  inv_fifo : ∀ u, submitted u (journal c)
                  = started u (journal c) ++ waiting u c ++ on_queue u c;
  inv_serial : ∀ u, started u (journal c) = converted u (journal c) ++ running u c
}.


(** ** Observations on the state dicts and the accounts *)

(** The dicts [user_state] refers to exist, and no two owners share one. *)
Record heap_ok (s : Sys) : Prop := {
  heap_range : ∀ u a, user_state s !! u = Some a → (a < heap_next s)%nat;
  heap_owner : ∀ u u' a, user_state s !! u = Some a → user_state s !! u' = Some a → u = u'
}.

(** What an event run on behalf of [actor] may touch: dicts are only added;
    an entry of [user_state] that is new refers to a new dict and is the
    actor's; a dict that existed is written only if it is the actor's current
    one; the row of every other account stays as it is. *)
Record acts_for (actor : Z) (s s' : Sys) : Prop := {
  frame_next : (heap_next s ≤ heap_next s')%nat;
  frame_entries : ∀ u b, user_state s' !! u = Some b →
                  user_state s !! u = Some b
                  ∨ (b = heap_next s ∧ u = actor ∧ (heap_next s < heap_next s')%nat);
  frame_dicts : ∀ b, (b < heap_next s)%nat → user_state s !! actor ≠ Some b →
                state_at b s' = state_at b s;
  frame_rows : ∀ u, u ≠ actor → users (db s') !! u = users (db s) !! u
}.

(** On whose behalf an event runs: the sender of a message or click, the owner
    of a finaliser. Workers and conversions touch neither dicts nor rows; they
    are given the owner 0 for definiteness. *)
Definition actor (e : Event) (s : Sys) : Z :=
  match e with
  | EvText uid _ _ _ _ _ _ => uid
  | EvType uid _ _ _ => uid
  | EvQuality uid _ _ _ _ => uid
  | EvWorker _ => 0
  | EvConverted _ _ => 0
  | EvFinalize f _ =>
      match finalizers s !! f with
      | Some (Some fin) => fin_user fin
      | _ => 0
      end
  end.

(** Events that touch neither dicts nor rows. *)
Definition silent (e : Event) (s : Sys) : bool :=
  match e with
  | EvWorker _ | EvConverted _ _ => true
  | EvFinalize f _ =>
      match finalizers s !! f with
      | Some (Some _) => false
      | _ => true
      end
  | _ => false
  end.

(** An event that is not run on behalf of [uid]. *)
Definition foreign (uid : Z) (e : Event) (s : Sys) : Prop :=
  silent e s = true ∨ actor e s ≠ uid.

(** A run in which no event is run on behalf of [uid]: no message, no click
    and no finaliser of that owner. *)
Fixpoint quiet (cfg : Config) (uid : Z) (evs : list Event) (s : Sys) : Prop :=
  match evs with
  | [] => True
  | e :: evs' => foreign uid e s ∧ quiet cfg uid evs' (step cfg e s)
  end.

(** A component of the system that neither the transport log nor the store
    writes of the finaliser of [uid] reach. *)
Definition untouched {A} (proj : Sys → A) (uid : Z) : Prop :=
  (∀ c b s, proj (call c b s) = proj s)
  ∧ (∀ c s, proj (with_db (refund_coins uid c) s) = proj s)
  ∧ (∀ t s, proj (with_db (decrement_counter uid t) s) = proj s)
  ∧ (∀ i s, proj (with_db (mark_conversion_refunded i) s) = proj s)
  ∧ (∀ i s, proj (with_db (mark_conversion_failed i) s) = proj s).

(** A computation of the finaliser that keeps a property of the system. *)
Definition preserves {B} (P : Sys → Prop) (m : M B) : Prop := ∀ s, P s → P (snd (m s)).

(** A property that neither the transport log, nor the store writes of the
    finaliser of [uid], nor its [user_state.pop] break. *)
Definition stable (P : Sys → Prop) (uid : Z) : Prop :=
  (∀ c b s, P s → P (call c b s))
  ∧ (∀ c s, P s → P (with_db (refund_coins uid c) s))
  ∧ (∀ t s, P s → P (with_db (decrement_counter uid t) s))
  ∧ (∀ i s, P s → P (with_db (mark_conversion_refunded i) s))
  ∧ (∀ i s, P s → P (with_db (mark_conversion_failed i) s))
  ∧ (∀ s, P s → P (pop_user_state uid s)).

(** The states the program reaches from its start. *)
Definition reachable (cfg : Config) (s : Sys) : Prop := ∃ evs, s = run cfg evs (init cfg).

(** There is a row with key [i]. *)
Definition has_row (i : Z) (s : Sys) : Prop := ∃ c, c ∈ conversions (db s) ∧ id c = i.

(** Every finaliser task was created when the conversion of a job holding its
    state dict returned. *)
Definition fin_inv (s : Sys) : Prop :=
  ∀ f fin, finalizers s !! f = Some (Some fin) →
    ∃ job, job_state job = fin_state fin
           ∧ job ∈ converted (fin_user fin) (journal (sched s)).

(** What a run of events that are foreign to [uid] keeps of the job [uid]
    was admitted with: the state dict [a] of the job, which stays the owner's
    alone, and the owner's row. *)
Record job_frame (uid : Z) (a : nat) (s1 s : Sys) : Prop := {
  jf_range : (a < heap_next s)%nat;
  jf_owner : ∀ u, user_state s !! u = Some a → u = uid;
  jf_dict : state_at a s = state_at a s1;
  jf_row : users (db s) !! uid = users (db s1) !! uid
}.

(** The store raises in [refund_coins]; every other call is answered. *)
Definition refund_raises : FinEnv :=
  {| file_exists := true; document_sent := true; refund_ok := false; decrement_ok := true;
     mark_ok := true; notice_ok := true; alarm_ok := true; edit_ok := true;
     fallback_ok := true |}.

(** What happens between the admission of [queued] and its finaliser: another
    user sends a title; the worker of user 7 takes the job and enters the
    gate; yt-dlp raises. *)
Definition meanwhile : list Event :=
  [ EvText 8 8 5 "bob" "Bob" (TxtTitle "tune") 3000000;
    EvWorker 0; EvWorker 0; EvConverted 0 (ProductionError "boom") ].

(** The finaliser [blocking_download_and_process] creates for that job. *)
Definition failed_job : Finalizer :=
  {| fin_progress := crashed; fin_state := 0; fin_user := 7 |}.




(** ** The daily window *)











(** * Properties *)

(** ** The ledger *)

Section LedgerFacts.

Lemma clamp_dec_nonneg c : 0 ≤ clamp_dec c.
Proof. unfold clamp_dec. destruct (0 <? c) eqn:E; [apply Z.ltb_lt in E|]; lia. Qed.

Lemma clamp_dec_succ c : 0 ≤ c → clamp_dec (c + 1) = c.
Proof. intros H. unfold clamp_dec. destruct (0 <? c + 1) eqn:E; [|apply Z.ltb_ge in E]; lia. Qed.

Lemma counter_op_nonneg o db : counters_nonneg db → counters_nonneg (counter_op o db).
Proof.
  intros H uid row Hl.
  destruct o as [u [[]|]|u [[]|]]; simpl in Hl;
    apply lookup_alter_Some in Hl as [[-> (x & Hx & ->)] | [? Hx]];
    specialize (H _ _ Hx); simpl; try (pose proof (clamp_dec_nonneg (music_count x)));
    try (pose proof (clamp_dec_nonneg (video_count x))); lia.
Qed.

(** C10. Starting from counters that are not negative (a new row has both at
    zero), every sequence of [increment_counter] and [decrement_counter]
    calls, on any accounts and kinds and with any number of decrements,
    leaves [music_count] and [video_count] of every account at zero or
    above. *)
Theorem counters_never_negative (os : list CounterOp) (db : Db) :
  counters_nonneg db → counters_nonneg (counter_ops os db).
Proof.
  revert db. induction os as [|o os IH]; intros db H; simpl; [exact H|].
  apply IH, counter_op_nonneg, H.
Qed.


Lemma one_account_nonneg : counters_nonneg one_account.
Proof.
  intros uid row Hl.
  assert (E : users one_account = {[ 7 := new_user "ana" "Ana" 0 ]}) by (vm_compute; reflexivity).
  rewrite E in Hl. apply lookup_singleton_Some in Hl as [_ <-]. simpl. lia.
Qed.

Lemma counters_never_negative_witness :
  counters_nonneg one_account ∧
  counters_nonneg
    (counter_ops [OpDecrement 7 (Some audio); OpIncrement 7 (Some audio);
                  OpDecrement 7 (Some audio); OpDecrement 7 (Some audio);
                  OpDecrement 7 (Some video)] one_account).
Proof.
  split; [exact one_account_nonneg|].
  apply (counters_never_negative _ one_account), one_account_nonneg.
Defined.

(** *** Two concurrent debits *)


Lemma deduct_select_pass uid amount db row :
  users db !! uid = Some row → amount ≤ coins row →
  deduct_step uid amount AtSelect db = (AtUpdate, db).
Proof.
  intros H Hc. simpl. rewrite H.
  destruct (coins row <? amount) eqn:E; [apply Z.ltb_lt in E; lia | reflexivity].
Qed.

Lemma deduct_select_fail uid amount db row :
  users db !! uid = Some row → coins row < amount →
  deduct_step uid amount AtSelect db = (Returned false, db).
Proof.
  intros H Hc. simpl. rewrite H.
  destruct (coins row <? amount) eqn:E; [reflexivity | apply Z.ltb_ge in E; lia].
Qed.

Lemma debit_lookup uid amount db row :
  users db !! uid = Some row →
  users (debit uid amount db) !! uid = Some (set_coins (coins row - amount) row).
Proof. intros H. simpl. rewrite lookup_alter_eq, H. reflexivity. Qed.

(** Run without interruption, the two steps are [deduct_coins]. *)
Lemma deduct_steps_atomic uid amount db :
  let '(pc, db1) := deduct_step uid amount AtSelect db in
  let '(pc', db2) := deduct_step uid amount pc db1 in
  (pc', db2) = (Returned (fst (deduct_coins uid amount db)), snd (deduct_coins uid amount db)).
Proof.
  unfold deduct_coins. simpl. destruct (users db !! uid) as [row|]; [|reflexivity].
  destruct (coins row <? amount); reflexivity.
Qed.

Ltac walk P U F R :=
  repeat (first [rewrite P | rewrite U | rewrite F | rewrite R]; cbn [two_step]);
  reflexivity.

(** C5, as the program is. [deduct_coins] reads the balance and writes the
    debit in two statements with a suspension between them and no lock per
    owner. With the balance equal to the cost of one job: when one call runs
    to completion before the other starts, exactly one succeeds, the other
    returns [False] (the request is answered "Insufficient coins") and the
    balance is zero; when both read before either writes, both succeed and
    the balance is minus the cost. *)
Theorem deduct_coins_two_requests (uid amount : Z) (db : Db) (row : User) :
  users db !! uid = Some row → coins row = amount → 0 < amount →
  (two_deducts uid amount [first; first; second; second] db
     = (Returned true, Returned false, debit uid amount db)
   ∧ two_deducts uid amount [second; second; first; first] db
     = (Returned false, Returned true, debit uid amount db)
   ∧ coins <$> users (debit uid amount db) !! uid = Some 0)
  ∧ Forall (fun sched =>
       two_deducts uid amount sched db
         = (Returned true, Returned true, debit uid amount (debit uid amount db)))
       overlapping_schedules
  ∧ coins <$> users (debit uid amount (debit uid amount db)) !! uid = Some (- amount).
Proof.
  intros H Hc Hpos.
  assert (P : deduct_step uid amount AtSelect db = (AtUpdate, db))
    by (apply (deduct_select_pass _ _ _ row); [exact H | lia]).
  assert (F : deduct_step uid amount AtSelect (debit uid amount db)
              = (Returned false, debit uid amount db)).
  { apply (deduct_select_fail _ _ _ (set_coins (coins row - amount) row));
      [apply debit_lookup, H | simpl; lia]. }
  assert (U : ∀ d, deduct_step uid amount AtUpdate d = (Returned true, debit uid amount d))
    by reflexivity.
  assert (R : ∀ b d, deduct_step uid amount (Returned b) d = (Returned b, d)) by reflexivity.
  repeat split.
  - unfold two_deducts; cbn [fold_left two_step]. walk P U F R.
  - unfold two_deducts; cbn [fold_left two_step]. walk P U F R.
  - rewrite (debit_lookup _ _ _ row H). simpl. f_equal. lia.
  - unfold overlapping_schedules.
    repeat constructor; unfold two_deducts; cbn [fold_left two_step]; walk P U F R.
  - rewrite (debit_lookup _ _ _ (set_coins (coins row - amount) row)
               (debit_lookup _ _ _ row H)).
    simpl. f_equal. lia.
Qed.


Lemma deduct_coins_two_requests_witness :
  (two_deducts 7 20 [first; first; second; second] exact_balance
     = (Returned true, Returned false, debit 7 20 exact_balance)
   ∧ two_deducts 7 20 [second; second; first; first] exact_balance
     = (Returned false, Returned true, debit 7 20 exact_balance)
   ∧ coins <$> users (debit 7 20 exact_balance) !! 7 = Some 0)
  ∧ Forall (fun sched =>
       two_deducts 7 20 sched exact_balance
         = (Returned true, Returned true, debit 7 20 (debit 7 20 exact_balance)))
       overlapping_schedules
  ∧ coins <$> users (debit 7 20 (debit 7 20 exact_balance)) !! 7 = Some (- 20).
Proof.
  apply (deduct_coins_two_requests 7 20 exact_balance (new_user "ana" "Ana" 20));
    [vm_compute; reflexivity | reflexivity | lia].
Defined.

(** C5, as claimed, fails: both requests pass the check against the same
    balance of 20, both debit 20, and the balance ends at -20. *)
Lemma both_requests_pass_the_check :
  two_deducts 7 20 [first; second; first; second] exact_balance
    = (Returned true, Returned true, debit 7 20 (debit 7 20 exact_balance))
  ∧ coins <$> users exact_balance !! 7 = Some 20
  ∧ coins <$> users (debit 7 20 (debit 7 20 exact_balance)) !! 7 = Some (-20).
Proof. repeat split; vm_compute; reflexivity. Qed.

End LedgerFacts.


(** ** Admission *)

Create Rewrite HintDb sys.

Section AdmissionFacts.

Context (cfg : Config).

Lemma state_at_store a f s : state_at a (store a f s) = f (state_at a s).
Proof. unfold state_at at 1, store. simpl. rewrite lookup_insert_eq. reflexivity. Qed.

Lemma state_at_store_ne a b f s : a ≠ b → state_at b (store a f s) = state_at b s.
Proof. intros H. unfold state_at, store. simpl. rewrite lookup_insert_ne by exact H. reflexivity. Qed.

Lemma state_at_call a c b s : state_at a (call c b s) = state_at a s.
Proof. reflexivity. Qed.

Lemma state_at_with_user_state a f s : state_at a (with_user_state f s) = state_at a s.
Proof. reflexivity. Qed.

Lemma state_at_with_db a f s : state_at a (with_db f s) = state_at a s.
Proof. reflexivity. Qed.

Lemma state_at_with_sched a f s : state_at a (with_sched f s) = state_at a s.
Proof. reflexivity. Qed.

Lemma state_at_with_payloads a f s : state_at a (with_payloads f s) = state_at a s.
Proof. reflexivity. Qed.

Lemma state_at_with_finalizers a f s : state_at a (with_finalizers f s) = state_at a s.
Proof. reflexivity. Qed.

Lemma state_at_pop a uid s : state_at a (pop_user_state uid s) = state_at a s.
Proof. reflexivity. Qed.

Lemma state_at_fresh d c b s :
  state_at (heap_next s) (call c b (with_heap_next S (with_heap <[heap_next s := d]> s))) = d.
Proof. unfold state_at. simpl. rewrite lookup_insert_eq. reflexivity. Qed.

#[local] Hint Rewrite state_at_store state_at_call state_at_with_user_state state_at_with_db
  state_at_with_sched state_at_with_payloads state_at_with_finalizers state_at_pop
  state_at_fresh : sys.

Lemma deduct_coins_true uid amount d d1 :
  deduct_coins uid amount d = (true, d1) →
  ∃ row, users d !! uid = Some row ∧ amount ≤ coins row ∧ d1 = debit uid amount d.
Proof.
  unfold deduct_coins. destruct (users d !! uid) as [row|]; [|discriminate].
  destruct (coins row <? amount) eqn:E; [discriminate|]. apply Z.ltb_ge in E.
  intros [= <-]. eauto.
Qed.

Lemma deduct_coins_false uid amount d d1 :
  deduct_coins uid amount d = (false, d1) →
  d1 = d ∧ ∀ row, users d !! uid = Some row → coins row < amount.
Proof.
  unfold deduct_coins. destruct (users d !! uid) as [row|]; [|intros [= <-]; split; [done|discriminate]].
  destruct (coins row <? amount) eqn:E; [|discriminate]. apply Z.ltb_lt in E.
  intros [= <-]. split; [done|]. intros ? [= <-]. exact E.
Qed.

(** What the first part of the click leaves behind. *)
Lemma select_quality_spec uid chat_id message_id kval s :
  let '(a, cost, s') := select_quality uid chat_id message_id kval s in
  cost = price uid kval s ∧ db s' = db s ∧ sched s' = sched s
  ∧ finalizers s' = finalizers s ∧ payloads s' = payloads s
  ∧ user_state s' = <[uid := a]> (user_state s)
  ∧ st_type (state_at a s') = pending_type uid s
  ∧ st_title (state_at a s') = pending_title uid s
  ∧ st_quality (state_at a s') = Some kval
  ∧ st_cost (state_at a s') = Some cost.
Proof.
  unfold select_quality, price, pending_type, pending_title, get_state.
  destruct (user_state s !! uid) as [a|] eqn:U; simpl;
    autorewrite with sys; simpl; repeat split; reflexivity.
Qed.

Lemma queue_job_spec uid chat_id a i s :
  let s' := queue_job uid chat_id a i s in
  db s' = db s ∧ finalizers s' = finalizers s
  ∧ user_state s' = <[uid := a]> (user_state s)
  ∧ sched s' = enqueue_user_conversion uid {| job_no := payloads s; job_state := a |} (sched s)
  ∧ state_at a s' =
      set_status_msg_id (Some (next_message_id s)) (set_conversion_id (Some i) (state_at a s)).
Proof.
  unfold queue_job. simpl. repeat split.
  autorewrite with sys. reflexivity.
Qed.

Lemma book_spec uid ttl typ kval cost clk d :
  let '(i, d') := book uid ttl typ kval cost clk d in
  i = next_id (conversions d)
  ∧ conversions d' = conversions d ++
      [ {| id := i; user_id := uid; title := ttl; type := typ; quality := kval; cost := cost;
           created_at := now_log clk; status := Done; refunded := false |} ]
  ∧ users d' = users (increment_counter uid typ
                 (set_user_last_conversion uid (now_stamp clk)
                    (bump_user_daily_count uid (now_bump clk) d))).
Proof.
  unfold book, log_conversion.
  assert (E : conversions (increment_counter uid typ
                 (set_user_last_conversion uid (now_stamp clk)
                    (bump_user_daily_count uid (now_bump clk) d))) = conversions d).
  { unfold bump_user_daily_count.
    destruct typ as [[]|]; destruct (users d !! uid); try case_decide; reflexivity. }
  simpl. rewrite E. repeat split.
Qed.

(** A refused request changes nothing in the store. *)
Lemma refused_db uid chat_id message_id kval clk s o s' :
  callback_quality cfg uid chat_id message_id kval clk s = (o, s') →
  (∀ i, o ≠ Accepted i) → db s' = db s.
Proof.
  unfold callback_quality. intros H Hr.
  pose proof (select_quality_spec uid chat_id message_id kval s) as Q.
  destruct (select_quality uid chat_id message_id kval s) as [[a cost] s0].
  destruct Q as (_ & Q & _).
  destruct (rate_limit_checks cfg uid clk (db s0)) as [[o' n]|].
  - injection H as <- <-. exact Q.
  - destruct (deduct_coins uid cost (db s0)) as [[] d1]; cbn [negb] in H.
    + destruct (book _ _ _ _ _ _ _) as [i d2]. injection H as <- <-.
      exfalso. eapply Hr. reflexivity.
    + injection H as <- <-. exact Q.
Qed.

(** What an admitted request has done when the handler returns. *)
Lemma accepted_spec uid chat_id message_id kval clk s i s1 :
  callback_quality cfg uid chat_id message_id kval clk s = (Accepted i, s1) →
  let typ := pending_type uid s in
  let cost := price uid kval s in
  ∃ a row,
    rate_limit_checks cfg uid clk (db s) = None
    ∧ users (db s) !! uid = Some row ∧ cost ≤ coins row
    ∧ i = next_id (conversions (db s))
    ∧ conversions (db s1) = conversions (db s) ++
        [ {| id := i; user_id := uid; title := default "(unknown)"%string (pending_title uid s);
             type := typ; quality := kval; cost := cost; created_at := now_log clk;
             status := Done; refunded := false |} ]
    ∧ users (db s1) = users (increment_counter uid typ
                        (set_user_last_conversion uid (now_stamp clk)
                           (bump_user_daily_count uid (now_bump clk)
                              (debit uid cost (db s)))))
    ∧ user_state s1 !! uid = Some a
    ∧ st_type (state_at a s1) = typ
    ∧ st_cost (state_at a s1) = Some cost
    ∧ st_conversion_id (state_at a s1) = Some i
    ∧ st_title (state_at a s1) = pending_title uid s
    ∧ st_quality (state_at a s1) = Some kval
    ∧ sched s1 = enqueue_user_conversion uid {| job_no := payloads s; job_state := a |} (sched s)
    ∧ finalizers s1 = finalizers s.
Proof.
  unfold callback_quality. intros H.
  pose proof (select_quality_spec uid chat_id message_id kval s) as Q.
  destruct (select_quality uid chat_id message_id kval s) as [[a cost] s0].
  destruct Q as (-> & Qd & Qs & Qf & Qp & Qu & Qt & Qtt & Qq & Qc).
  destruct (rate_limit_checks cfg uid clk (db s0)) as [[o' n]|] eqn:R.
  { injection H as E _. unfold rate_limit_checks in R.
    repeat case_match; simplify_eq. }
  destruct (deduct_coins uid _ (db s0)) as [[] d1] eqn:D; cbn [negb] in H; [|discriminate].
  apply deduct_coins_true in D as (row & Hrow & Hc & ->).
  pose proof (book_spec uid (default "(unknown)"%string (st_title (state_at a s0)))
                (st_type (state_at a s0)) kval (price uid kval s) clk
                (debit uid (price uid kval s) (db s0))) as B.
  destruct (book _ _ _ _ _ _ _) as [i' d2]. destruct B as (Bi & Bc & Bu).
  injection H as <- <-.
  pose proof (queue_job_spec uid chat_id a i' (with_db (λ _, d2) s0)) as J.
  cbv zeta in J. destruct J as (Jd & Jf & Ju & Js & Ja).
  rewrite Qd in *. rewrite Qt, Qtt in *.
  exists a, row. rewrite Jd, Ju, Js, Jf, Ja. simpl.
  autorewrite with sys. simpl. rewrite Qs, Qp, Qq, Qc, Qt, Qtt, lookup_insert_eq.
  repeat split; done.
Qed.

(** C4. An admission request that is refused, by the daily limit, by the
    cooldown or by the balance check, leaves the ledger store as it was: every
    account keeps its balance, its two counters, its daily count and date and
    its last-conversion timestamp, and no conversion row is added or
    changed. *)
Theorem rejected_admission_leaves_ledger uid chat_id message_id kval clk s o s' :
  callback_quality cfg uid chat_id message_id kval clk s = (o, s') →
  o = DailyLimitExceeded ∨ (∃ wait, o = Cooldown wait) ∨ o = InsufficientFunds →
  db s' = db s.
Proof.
  intros H Hr. apply (refused_db _ _ _ _ _ _ _ _ H).
  intros i ->. destruct Hr as [?|[[? ?]|?]]; discriminate.
Qed.

End AdmissionFacts.

Lemma rejected_admission_leaves_ledger_witness :
  let r := callback_quality default_config 7 7 3 128 (at_time 2000000) broke in
  fst r = InsufficientFunds ∧ db (snd r) = db broke.
Proof.
  split; [vm_compute; reflexivity|].
  apply (rejected_admission_leaves_ledger default_config 7 7 3 128 (at_time 2000000) broke
           InsufficientFunds);
    [vm_compute; reflexivity | right; right; reflexivity].
Defined.

(** ** The finaliser *)

Ltac fin_unfold :=
  unfold async_finalize_and_update, deliver, conversion_failed, try_finally, bind,
    try_except, ignoring, transport, store_op, ret, truthy.

Section FinalizerFacts.

Lemma update_where_id_status i f cs c :
  c ∈ update_where_id i f cs → id c = i → (∀ x, id (f x) = id x) →
  ∃ x, x ∈ cs ∧ id x = i ∧ c = f x.
Proof.
  unfold update_where_id. intros Hin Hid Hf.
  apply list_elem_of_fmap in Hin as (x & -> & Hx).
  destruct (id x =? i) eqn:E.
  - apply Z.eqb_eq in E. eauto.
  - apply Z.eqb_neq in E. contradiction.
Qed.

Lemma counter_after_refund uid typ cost d :
  counter_of typ <$> users (decrement_counter uid typ (refund_coins uid cost d)) !! uid
    = (fun r => clamp_dec (counter_of typ r)) <$> users d !! uid.
Proof.
  destruct typ as [[]|]; simpl; rewrite !lookup_alter_eq;
    destruct (users d !! uid); reflexivity.
Qed.

Lemma coins_after_refund uid typ cost d :
  coins <$> users (decrement_counter uid typ (refund_coins uid cost d)) !! uid
    = (fun r => coins r + cost) <$> users d !! uid.
Proof.
  destruct typ as [[]|]; simpl; rewrite !lookup_alter_eq;
    destruct (users d !! uid); reflexivity.
Qed.

Lemma conversions_after_refund uid typ cost d :
  conversions (decrement_counter uid typ (refund_coins uid cost d)) = conversions d.
Proof. destruct typ as [[]|]; reflexivity. Qed.

(** C7. A job that was produced (the file exists) and whose [send_document]
    raises. When [refund_coins], [decrement_counter] and
    [mark_conversion_refunded] all return: the owner's balance grows by the
    cost held in the job's state, the counter of the job's kind is
    decremented (clamped at zero; on a counter that admission incremented
    this undoes the increment), every row with the job's id is marked
    [refunded], and the refund notice is sent to the owner. When one of the
    three raises: no row is marked, and the owner is sent the notice asking to
    contact the admin. *)
Theorem delivery_failure_refunds env p a uid s chat cost i path :
  st_chat_id (state_at a s) = Some chat →
  st_cost (state_at a s) = Some cost →
  st_conversion_id (state_at a s) = Some i → i ≠ 0 →
  filepath p = Some path → file_exists env = true → document_sent env = false →
  let typ := st_type (state_at a s) in
  let s' := snd (async_finalize_and_update env p a uid s) in
  (refund_ok env && decrement_ok env && mark_ok env = true →
     coins <$> users (db s') !! uid = (fun r => coins r + cost) <$> users (db s) !! uid
     ∧ counter_of typ <$> users (db s') !! uid
         = (fun r => clamp_dec (counter_of typ r)) <$> users (db s) !! uid
     ∧ (∀ c, 0 ≤ c → clamp_dec (c + 1) = c)
     ∧ conversions (db s') = update_where_id i (set_status Refunded true) (conversions (db s))
     ∧ (∀ c, c ∈ conversions (db s') → id c = i → status c = Refunded ∧ refunded c = true)
     ∧ (send_message chat (RefundedNotice cost), notice_ok env) ∈ outbox s')
  ∧ (refund_ok env && decrement_ok env && mark_ok env = false →
     conversions (db s') = conversions (db s)
     ∧ (send_message chat RefundFailedNotice, alarm_ok env) ∈ outbox s').
Proof.
  intros Hchat Hcost Hconv Hi Hp Hf Hd typ s'. subst s' typ.
  fin_unfold. rewrite Hchat, Hcost, Hconv, Hp, Hf, Hd.
  destruct (Z.eqb_spec i 0) as [|_]; [contradiction|].
  split; intros Hr.
  - apply andb_prop in Hr as [Hr ->]. apply andb_prop in Hr as [-> ->].
    destruct (notice_ok env), (alarm_ok env); cbn -[decrement_counter refund_coins];
      rewrite conversions_after_refund;
      (split; [apply coins_after_refund|]);
      (split; [apply counter_after_refund|]);
      (split; [apply clamp_dec_succ|]);
      (split; [reflexivity|]);
      (split; [intros c Hc Hid;
               apply update_where_id_status in Hc as (x & _ & _ & ->); [done|done|done]|]);
      rewrite !elem_of_app, !list_elem_of_singleton; tauto.
  - destruct (refund_ok env), (decrement_ok env), (mark_ok env); try discriminate;
      destruct (notice_ok env), (alarm_ok env); cbn -[decrement_counter refund_coins];
      rewrite ?conversions_after_refund;
      (split; [reflexivity|]);
      rewrite !elem_of_app, !list_elem_of_singleton; tauto.
Qed.

(** The production-failure branch, for a store that answers. *)
Lemma finalize_production_failure env p a uid s chat cost i :
  st_chat_id (state_at a s) = Some chat →
  st_cost (state_at a s) = Some cost →
  st_conversion_id (state_at a s) = Some i → i ≠ 0 →
  filepath p = None ∨ file_exists env = false →
  mark_ok env = true → refund_ok env = true → decrement_ok env = true →
  let s' := snd (async_finalize_and_update env p a uid s) in
  db s' = decrement_counter uid (st_type (state_at a s))
            (refund_coins uid cost (mark_conversion_failed i (db s)))
  ∧ (edit_message_text (Some chat) (st_status_msg_id (state_at a s))
       (StatusError (default "(unknown)"%string (st_title (state_at a s))) (status_text p)),
     edit_ok env) ∈ outbox s'
  ∧ (edit_ok env = false →
     (send_message chat (ConversionFailed (status_text p)), fallback_ok env) ∈ outbox s').
Proof.
  intros Hchat Hcost Hconv Hi Hp Hm Hr Hd s'. subst s'.
  fin_unfold. rewrite Hchat, Hcost, Hconv, Hm, Hr, Hd.
  destruct (Z.eqb_spec i 0) as [|_]; [contradiction|].
  destruct Hp as [-> | Hfe]; [|rewrite Hfe; destruct (filepath p)];
    destruct (edit_ok env), (fallback_ok env);
    cbn -[decrement_counter refund_coins mark_conversion_failed];
    (split; [reflexivity|]); rewrite !elem_of_app, !list_elem_of_singleton;
    (split; [tauto | intros; try discriminate; tauto]).
Qed.

End FinalizerFacts.

(** ** One job, from admission to its finaliser *)

Section JobFacts.

Context (cfg : Config).

(** The owner's row after the bookkeeping of an admitted request. *)
Lemma booked_row uid typ cost clk d row :
  users d !! uid = Some row →
  ∃ row1,
    users (increment_counter uid typ
             (set_user_last_conversion uid (now_stamp clk)
                (bump_user_daily_count uid (now_bump clk) (debit uid cost d)))) !! uid
      = Some row1
    ∧ coins row1 = coins row - cost
    ∧ music_count row1 = music_count row + (if decide (typ = Some audio) then 1 else 0)
    ∧ video_count row1 = video_count row + (if decide (typ = Some audio) then 0 else 1)
    ∧ last_conversion_at row1 = Some (Iso (now_stamp clk))
    ∧ daily_count_date row1 = Some (today_utc8 (now_bump clk))
    ∧ daily_count row1 =
        (if decide (daily_count_date row = Some (today_utc8 (now_bump clk)))
         then daily_count row + 1 else 1).
Proof.
  intros H. unfold bump_user_daily_count.
  rewrite (debit_lookup _ _ _ _ H). cbn [daily_count_date set_coins].
  destruct (decide (daily_count_date row = Some (today_utc8 (now_bump clk)))) as [E|E];
    destruct typ as [[]|]; simpl; rewrite !lookup_alter_eq, H; simpl;
    eexists; (split; [reflexivity|]); simpl; repeat split; try lia; try done.
Qed.

Lemma next_id_nonzero cs : next_id cs ≠ 0.
Proof. unfold next_id. lia. Qed.

End JobFacts.

Lemma delivery_failure_refunds_witness :
  let s' := snd (async_finalize_and_update send_fails downloaded 0 7 queued) in
  (coins <$> users (db queued) !! 7 = Some 480 ∧ coins <$> users (db s') !! 7 = Some 500)
  ∧ (∀ c, c ∈ conversions (db s') → id c = 1 → status c = Refunded ∧ refunded c = true)
  ∧ (send_message 7 (RefundedNotice 20), true) ∈ outbox s'.
Proof.
  pose proof (delivery_failure_refunds send_fails downloaded 0 7 queued 7 20 1
                "/tmp/x/song.mp3") as T.
  cbv zeta in T.
  destruct T as [T _]; try (vm_compute; reflexivity); [discriminate|].
  destruct (T eq_refl) as (_ & _ & _ & _ & T1 & T2).
  split; [split; vm_compute; reflexivity|]. split; [exact T1 | exact T2].
Defined.

(** ** The stored status of a job *)

Section Lifecycle.

Lemma worker_run_db t s : db (worker_run t s) = db s.
Proof.
  unfold worker_run. destruct (task_heap (sched s) !! t) as [[u []]|]; try reflexivity.
  destruct (global_semaphore (sched s)); reflexivity.
Qed.

Lemma conversion_done_db t r s : db (conversion_done t r s) = db s.
Proof.
  unfold conversion_done, blocking_download_and_process.
  destruct (task_heap (sched s) !! t) as [[u []]|]; try reflexivity.
  destruct (progress_of r); reflexivity.
Qed.


End Lifecycle.

(** ** What each event does to the queueing globals *)

Section Frames.

Context (cfg : Config).

Lemma keeps_ret {A B} (proj : Sys → A) (x : B) : keeps proj (ret x).
Proof. intros s. reflexivity. Qed.

Lemma keeps_bind {A B C} (proj : Sys → A) (m : M B) (k : B → M C) :
  keeps proj m → (∀ x, keeps proj (k x)) → keeps proj (bind m k).
Proof.
  intros Hm Hk s. unfold bind. specialize (Hm s).
  destruct (m s) as [[x|] s1]; simpl in *; [|exact Hm].
  rewrite Hk. exact Hm.
Qed.

Lemma keeps_try_except {A} (proj : Sys → A) (m h : M unit) :
  keeps proj m → keeps proj h → keeps proj (try_except m h).
Proof.
  intros Hm Hh s. unfold try_except. specialize (Hm s).
  destruct (m s) as [[x|] s1]; simpl in *; [exact Hm|].
  rewrite Hh. exact Hm.
Qed.

Lemma keeps_transport {A} (proj : Sys → A) c b :
  (∀ s, proj (call c b s) = proj s) → keeps proj (transport c b).
Proof. intros H s. apply H. Qed.

Lemma keeps_store_op {A} (proj : Sys → A) ok f :
  (∀ s, proj (with_db f s) = proj s) → keeps proj (store_op ok f).
Proof. intros H s. unfold store_op. destruct ok; [apply H | reflexivity]. Qed.

(** The finaliser touches the store, the transport log and [user_state]
    only. *)
Lemma finalizer_keeps {A} (proj : Sys → A) env p a uid :
  (∀ c b s, proj (call c b s) = proj s) →
  (∀ f s, proj (with_db f s) = proj s) →
  (∀ u s, proj (pop_user_state u s) = proj s) →
  keeps proj (async_finalize_and_update env p a uid).
Proof.
  intros Hc Hd Hp s. unfold async_finalize_and_update.
  destruct (st_chat_id (state_at a s)) as [chat|]; [|reflexivity].
  destruct (st_cost (state_at a s)) as [cost|]; [|reflexivity].
  assert (K1 : ∀ x y z, keeps proj (deliver env uid chat cost x y z (st_type (state_at a s))
                                      (st_conversion_id (state_at a s)))).
  { intros. unfold deliver, ignoring.
    repeat first [ apply keeps_bind; [|intros _] | apply keeps_try_except
                 | apply keeps_transport, Hc | apply keeps_store_op, Hd | apply keeps_ret
                 | destruct (truthy _) ]. }
  assert (K2 : ∀ x y z, keeps proj (conversion_failed env uid chat cost x y z
                                      (st_type (state_at a s))
                                      (st_conversion_id (state_at a s)))).
  { intros. unfold conversion_failed, ignoring.
    repeat first [ apply keeps_bind; [|intros _] | apply keeps_try_except
                 | apply keeps_transport, Hc | apply keeps_store_op, Hd | apply keeps_ret
                 | destruct (truthy _) ]. }
  unfold try_finally.
  match goal with |- proj (snd (let '(r, s') := ?m s in _)) = _ =>
    assert (K : keeps proj m) by (destruct (filepath p); [destruct (file_exists env)|]; auto);
    specialize (K s); destruct (m s) as [r s1] end.
  simpl in *. rewrite Hp, Hc. exact K.
Qed.

Lemma finalizer_run_sched f env s : sched (finalizer_run f env s) = sched s.
Proof.
  unfold finalizer_run. destruct (finalizers s !! f) as [[fin|]|]; try reflexivity.
  rewrite (finalizer_keeps sched); reflexivity.
Qed.

Lemma handle_start_text_sched uid chat_id message_id uname fname text now s :
  sched (handle_start_text uid chat_id message_id uname fname text now s) = sched s.
Proof.
  unfold handle_start_text, start_search_flow, alloc.
  destruct text; repeat case_match; simplify_eq; reflexivity.
Qed.

Lemma callback_type_sched uid chat_id message_id typ s :
  sched (callback_type uid chat_id message_id typ s) = sched s.
Proof. unfold callback_type, get_state. destruct (user_state s !! uid); reflexivity. Qed.

Lemma callback_quality_sched uid chat_id message_id kval clk s :
  let r := callback_quality cfg uid chat_id message_id kval clk s in
  match fst r with
  | Accepted _ =>
      ∃ a, sched (snd r)
           = enqueue_user_conversion uid {| job_no := payloads s; job_state := a |} (sched s)
  | _ => sched (snd r) = sched s
  end.
Proof.
  cbv zeta.
  destruct (callback_quality cfg uid chat_id message_id kval clk s) as [o s'] eqn:H.
  simpl. destruct o.
  - apply accepted_spec in H. cbv zeta in H. destruct H as (a & row & H). exists a. tauto.
  - unfold callback_quality in H.
    pose proof (select_quality_spec uid chat_id message_id kval s) as Q.
    destruct (select_quality _ _ _ _ s) as [[a cost] s0]. destruct Q as (_ & _ & Q & _).
    repeat case_match; simplify_eq; exact Q.
  - unfold callback_quality in H.
    pose proof (select_quality_spec uid chat_id message_id kval s) as Q.
    destruct (select_quality _ _ _ _ s) as [[a cost] s0]. destruct Q as (_ & _ & Q & _).
    repeat case_match; simplify_eq; exact Q.
  - unfold callback_quality in H.
    pose proof (select_quality_spec uid chat_id message_id kval s) as Q.
    destruct (select_quality _ _ _ _ s) as [[a cost] s0]. destruct Q as (_ & _ & Q & _).
    repeat case_match; simplify_eq; exact Q.
Qed.

(** Every event either leaves the queueing globals alone or is one of the
    four acts on them. *)
Lemma step_sched e s :
  sched (step cfg e s) = sched s ∨ ∃ x, sched (step cfg e s) = act x (sched s).
Proof.
  destruct e as [uid chat mid un fn text now | uid chat mid typ | uid chat mid kval clk
                | t | t r | f env]; simpl.
  - left. apply handle_start_text_sched.
  - left. apply callback_type_sched.
  - pose proof (callback_quality_sched uid chat mid kval clk s) as H. cbv zeta in H.
    destruct (fst (callback_quality cfg uid chat mid kval clk s)); auto.
    destruct H as [a H]. right. exists (ActEnqueue uid {| job_no := payloads s; job_state := a |}).
    exact H.
  - unfold worker_run. destruct (task_heap (sched s) !! t) as [[u []]|] eqn:T; auto.
    + right. exists (ActStart t). reflexivity.
    + destruct (global_semaphore (sched s)) eqn:G; auto.
      right. eexists (ActEnter t _). reflexivity.
  - unfold conversion_done, blocking_download_and_process.
    destruct (task_heap (sched s) !! t) as [[u []]|] eqn:T; auto.
    right. destruct (progress_of r).
    + exists (ActLeave t true). reflexivity.
    + exists (ActLeave t false). reflexivity.
  - left. apply finalizer_run_sched.
Qed.

End Frames.

(** ** The global gate *)

Section Gate.

Lemma in_gate_nil : in_gate [] = 0%nat.
Proof. reflexivity. Qed.

Lemma in_gate_cons k l :
  in_gate (k :: l) = ((if in_gate_pc (task_pc k) then 1 else 0) + in_gate l)%nat.
Proof.
  unfold in_gate. rewrite filter_cons.
  destruct (in_gate_pc (task_pc k)); case_decide; simpl; congruence.
Qed.

Lemma in_gate_app l k :
  in_gate (l ++ [k]) = (in_gate l + (if in_gate_pc (task_pc k) then 1 else 0))%nat.
Proof.
  induction l as [|x l IH]; simpl.
  - rewrite in_gate_cons, in_gate_nil. lia.
  - rewrite !in_gate_cons, IH. lia.
Qed.

Lemma in_gate_alter f t l k :
  l !! t = Some k →
  (in_gate (alter f t l) + (if in_gate_pc (task_pc k) then 1 else 0)
   = in_gate l + (if in_gate_pc (task_pc (f k)) then 1 else 0))%nat.
Proof.
  revert t. induction l as [|x l IH]; intros [|t] H; simpl in H; try discriminate.
  - injection H as ->. change (alter f 0%nat (k :: l)) with (f k :: l).
    rewrite !in_gate_cons. lia.
  - change (alter f (S t) (x :: l)) with (x :: alter f t l).
    rewrite !in_gate_cons. specialize (IH _ H). lia.
Qed.

Lemma set_pc_gate t pc c k :
  task_heap c !! t = Some k →
  global_semaphore (set_pc t pc c) = global_semaphore c
  ∧ (in_gate (task_heap (set_pc t pc c)) + (if in_gate_pc (task_pc k) then 1 else 0)
     = in_gate (task_heap c) + (if in_gate_pc pc then 1 else 0))%nat.
Proof.
  intros H. split; [reflexivity|]. simpl.
  apply (in_gate_alter (fun k => {| task_user := task_user k; task_pc := pc |}) t _ k H).
Qed.

Lemma worker_loop_gate t uid q c k :
  task_heap c !! t = Some k →
  global_semaphore (worker_loop t uid q c) = global_semaphore c
  ∧ (in_gate (task_heap (worker_loop t uid q c)) + (if in_gate_pc (task_pc k) then 1 else 0)
     = in_gate (task_heap c))%nat.
Proof.
  intros H. unfold worker_loop. destruct (queue_at q c) as [|job rest].
  - pose proof (set_pc_gate t Finished
                  (with_user_queues (delete uid) (with_user_queue_tasks (delete uid) c)) k H)
      as [E1 E2].
    simpl in *. split; [reflexivity|]. lia.
  - pose proof (set_pc_gate t (AwaitGate q job) (with_queue_heap <[q:=rest]> c) k H)
      as [E1 E2].
    simpl in *. split; [reflexivity|]. lia.
Qed.

Lemma enqueue_gate uid job c :
  global_semaphore (enqueue_user_conversion uid job c) = global_semaphore c
  ∧ in_gate (task_heap (enqueue_user_conversion uid job c)) = in_gate (task_heap c).
Proof.
  unfold enqueue_user_conversion, ensure_worker, put, ensure_queue, create_worker, observe.
  repeat case_match; simpl; rewrite ?in_gate_app; simpl; split; lia.
Qed.

(** The units that are free and the workers inside the gate always add up to
    the capacity. *)
Lemma act_gate cap x c :
  (global_semaphore c + in_gate (task_heap c))%nat = cap →
  (global_semaphore (act x c) + in_gate (task_heap (act x c)))%nat = cap.
Proof.
  intros H. destruct x as [uid job | t | t keys | t returned]; simpl.
  - destruct (enqueue_gate uid job c) as [-> ->]. exact H.
  - unfold worker_start. destruct (task_heap c !! t) as [[u []]|] eqn:T; try exact H.
    destruct (user_queues c !! u) as [q|].
    + destruct (worker_loop_gate t u q c _ T) as [-> E]. simpl in *. lia.
    + destruct (set_pc_gate t Finished c _ T) as [-> E]. simpl in *. lia.
  - unfold enter_gate. destruct (task_heap c !! t) as [[u []]|] eqn:T; try exact H.
    destruct (global_semaphore c) as [|n] eqn:G; [rewrite G; exact H|].
    destruct keys.
    + pose proof (set_pc_gate t (InGate q job)
                    (observe (Started u job) (with_global_semaphore (λ _, n) c)) _ T) as [E1 E2].
      simpl in *. lia.
    + pose proof (set_pc_gate t Finished
                    (observe (Converted u job) (with_global_semaphore S
                       (observe (Started u job) (with_global_semaphore (λ _, n) c)))) _ T)
        as [E1 E2].
      simpl in *. lia.
  - unfold leave_gate. destruct (task_heap c !! t) as [[u []]|] eqn:T; try exact H.
    destruct returned.
    + pose proof (worker_loop_gate t u q
                    (observe (Converted u job) (with_global_semaphore S c)) _ T) as [E1 E2].
      simpl in *. lia.
    + pose proof (set_pc_gate t Finished
                    (observe (Converted u job) (with_global_semaphore S c)) _ T) as [E1 E2].
      simpl in *. lia.
Qed.

Lemma run_gate cfg evs s :
  (global_semaphore (sched s) + in_gate (task_heap (sched s)))%nat = GLOBAL_CONCURRENCY cfg →
  (global_semaphore (sched (run cfg evs s)) + in_gate (task_heap (sched (run cfg evs s))))%nat
    = GLOBAL_CONCURRENCY cfg.
Proof.
  revert s. induction evs as [|e evs IH]; intros s H; simpl; [exact H|].
  apply IH. destruct (step_sched cfg e s) as [-> | [x ->]]; [exact H|].
  apply act_gate, H.
Qed.

(** C3. In every state the program reaches, the number of jobs whose
    conversion is running (workers inside [async with global_semaphore])
    plus the number of free units is the capacity [GLOBAL_CONCURRENCY], so the
    former never exceeds the capacity. A worker enters the gate only by
    taking a unit, and does not enter when none is free; leaving gives the
    unit back whether the conversion thread returned or raised. *)
Theorem running_jobs_within_capacity cfg evs :
  let c := sched (run cfg evs (init cfg)) in
  ((global_semaphore c + in_gate (task_heap c))%nat = GLOBAL_CONCURRENCY cfg
   ∧ (in_gate (task_heap c) ≤ GLOBAL_CONCURRENCY cfg)%nat)
  ∧ (∀ t u q job, task_heap c !! t = Some {| task_user := u; task_pc := AwaitGate q job |} →
       match global_semaphore c with
       | O => enter_gate t true c = c
       | S n => global_semaphore (enter_gate t true c) = n
                ∧ task_pc <$> task_heap (enter_gate t true c) !! t = Some (InGate q job)
       end)
  ∧ (∀ t u q job returned,
       task_heap c !! t = Some {| task_user := u; task_pc := InGate q job |} →
       global_semaphore (leave_gate t returned c) = S (global_semaphore c)).
Proof.
  intros c.
  assert (G : (global_semaphore c + in_gate (task_heap c))%nat = GLOBAL_CONCURRENCY cfg)
    by (apply run_gate; simpl; rewrite in_gate_nil; lia).
  split; [split; [exact G | lia]|]. split.
  - intros t u q job T. unfold enter_gate. rewrite T.
    destruct (global_semaphore c); [reflexivity|]. simpl. split; [reflexivity|].
    rewrite list_lookup_alter_eq, T. reflexivity.
  - intros t u q job returned T. unfold leave_gate. rewrite T.
    destruct returned; [|reflexivity].
    unfold worker_loop. destruct (queue_at q _); reflexivity.
Qed.

End Gate.

Section StoredStatus.

Context (cfg : Config).


End StoredStatus.



(** ** One owner, one worker, one job at a time *)

Section Workers.

Lemma submitted_snoc u j o :
  submitted u (j ++ [o]) = submitted u j ++
    match o with Submitted u' job => if decide (u' = u) then [job] else [] | _ => [] end.
Proof.
  unfold submitted. rewrite omap_app. f_equal. simpl.
  destruct o; try reflexivity; case_decide; reflexivity.
Qed.

Lemma started_snoc u j o :
  started u (j ++ [o]) = started u j ++
    match o with Started u' job => if decide (u' = u) then [job] else [] | _ => [] end.
Proof.
  unfold started. rewrite omap_app. f_equal. simpl.
  destruct o; try reflexivity; case_decide; reflexivity.
Qed.

Lemma converted_snoc u j o :
  converted u (j ++ [o]) = converted u j ++
    match o with Converted u' job => if decide (u' = u) then [job] else [] | _ => [] end.
Proof.
  unfold converted. rewrite omap_app. f_equal. simpl.
  destruct o; try reflexivity; case_decide; reflexivity.
Qed.

(** The job a task holds while waiting, and inside the gate. *)
Lemma waiting_eq u c c' :
  user_queue_tasks c' !! u = user_queue_tasks c !! u →
  (∀ t, user_queue_tasks c !! u = Some t → task_heap c' !! t = task_heap c !! t) →
  waiting u c' = waiting u c.
Proof.
  intros H1 H2. unfold waiting. rewrite H1.
  destruct (user_queue_tasks c !! u) as [t|]; [|reflexivity]. rewrite (H2 t eq_refl). reflexivity.
Qed.

Lemma running_eq u c c' :
  user_queue_tasks c' !! u = user_queue_tasks c !! u →
  (∀ t, user_queue_tasks c !! u = Some t → task_heap c' !! t = task_heap c !! t) →
  running u c' = running u c.
Proof.
  intros H1 H2. unfold running. rewrite H1.
  destruct (user_queue_tasks c !! u) as [t|]; [|reflexivity]. rewrite (H2 t eq_refl). reflexivity.
Qed.

Lemma on_queue_eq u c c' :
  user_queues c' !! u = user_queues c !! u →
  (∀ q, user_queues c !! u = Some q → queue_heap c' !! q = queue_heap c !! q) →
  on_queue u c' = on_queue u c.
Proof.
  intros H1 H2. unfold on_queue, queue_at. rewrite H1.
  destruct (user_queues c !! u) as [q|]; [|reflexivity]. rewrite (H2 q eq_refl). reflexivity.
Qed.

Lemma init_sched_inv cfg : sched_inv (init_sched cfg).
Proof.
  split; [split|..]; simpl; try (intros; simplify_map_eq; fail);
    try (intros; simplify_list_eq; fail); reflexivity.
Qed.

Lemma ensure_queue_inv uid c :
  sched_inv c → sched_inv (ensure_queue uid c) ∧ is_Some (user_queues (ensure_queue uid c) !! uid).
Proof.
  intros [[L R A I Hd] F S]. unfold ensure_queue.
  destruct (user_queues c !! uid) as [q|] eqn:U.
  - split; [done | rewrite U; eauto].
  - split; [| simpl; rewrite lookup_insert_eq; eauto]. split; [split|..]; simpl.
    + exact L.
    + exact R.
    + intros u q. rewrite lookup_insert, length_app. simpl. case_decide.
      * intros [= <-]. lia.
      * intros H'. apply A in H'. lia.
    + intros u u' q. rewrite !lookup_insert. repeat case_decide; subst; intros H1 H2; try congruence.
      * injection H1 as <-. apply A in H2. lia.
      * injection H2 as <-. apply A in H1. lia.
      * eapply I; eauto.
    + intros t k q job Ht Hpc. specialize (Hd _ _ _ _ Ht Hpc). rewrite lookup_insert.
      case_decide; [subst; congruence | done].
    + intros u. rewrite F. f_equal. f_equal.
      unfold on_queue, queue_at. simpl. rewrite lookup_insert. case_decide.
      * subst. rewrite U. rewrite lookup_app_r, Nat.sub_diag by lia. reflexivity.
      * destruct (user_queues c !! u) as [q|] eqn:E; [|reflexivity].
        rewrite lookup_app_l by (eapply A; eauto). reflexivity.
    + exact S.
Qed.

Lemma put_inv uid job c :
  sched_inv c → is_Some (user_queues c !! uid) →
  sched_inv (observe (Submitted uid job) (put uid job c)).
Proof.
  intros [[L R A I Hd] F S] [q U]. unfold put. rewrite U.
  split; [split|..]; simpl.
  - exact L.
  - exact R.
  - intros u q' H'. rewrite length_insert. eapply A; eauto.
  - exact I.
  - exact Hd.
  - intros u. rewrite submitted_snoc, started_snoc, F, app_nil_r, <- !app_assoc.
    f_equal. f_equal.
    unfold on_queue, queue_at. simpl. case_decide as E.
    + subst. rewrite U. rewrite list_lookup_insert_eq by (eapply A; eauto). reflexivity.
    + destruct (user_queues c !! u) as [q'|] eqn:E'; [|reflexivity].
      rewrite list_lookup_insert_ne, app_nil_r; [reflexivity|].
      intros ->. apply E. eapply I; eauto.
  - intros u. rewrite started_snoc, converted_snoc, !app_nil_r. apply S.
Qed.

Lemma is_done_spec t c :
  is_done t c = true ↔ ∃ u, task_heap c !! t = Some {| task_user := u; task_pc := Finished |}.
Proof.
  unfold is_done. destruct (task_heap c !! t) as [[u []]|]; split; try discriminate;
    try (intros [? [=]]); eauto.
Qed.

Lemma ensure_worker_inv uid c : sched_inv c → sched_inv (ensure_worker uid c).
Proof.
  intros [[L R A I Hd] F S].
  assert (C : (∀ t k, task_heap c !! t = Some k → task_user k = uid → ¬ live k) →
              sched_inv (create_worker uid c)).
  { intros N. unfold create_worker. split; [split|..]; simpl.
    - intros t k Ht Hl. apply lookup_app_Some in Ht as [Ht | [Hlen Ht]].
      + rewrite lookup_insert. case_decide as E.
        * exfalso. eapply N; eauto.
        * eapply L; eauto.
      + apply list_lookup_singleton_Some in Ht as [Ht <-]. simpl.
        rewrite lookup_insert_eq. f_equal. lia.
    - intros u t. rewrite lookup_insert. case_decide as E.
      + intros [= <-]. subst. eexists. split; [apply list_lookup_middle; reflexivity|reflexivity].
      + intros H'. destruct (R _ _ H') as (k & Hk & Hu). exists k. split; [|exact Hu].
        apply lookup_app_l_Some, Hk.
    - exact A.
    - exact I.
    - intros t k q job Ht Hpc. apply lookup_app_Some in Ht as [Ht | [Hlen Ht]].
      + eapply Hd; eauto.
      + apply list_lookup_singleton_Some in Ht as [Ht <-]. simpl in Hpc.
        destruct Hpc; discriminate.
    - intros u. rewrite F. f_equal. f_equal.
      unfold waiting. simpl. rewrite lookup_insert. case_decide as E.
      + subst. rewrite list_lookup_middle by reflexivity.
        destruct (user_queue_tasks c !! u) as [t|] eqn:Rg; [|reflexivity].
        destruct (R _ _ Rg) as (k & Hk & Hu). rewrite Hk.
        destruct k as [u' pc]. simpl in Hu. subst.
        destruct pc; try reflexivity. exfalso. eapply (N _ _ Hk); [reflexivity | discriminate].
      + destruct (user_queue_tasks c !! u) as [t|] eqn:Rg; [|reflexivity].
        destruct (R _ _ Rg) as (k & Hk & Hu). rewrite (lookup_app_l_Some _ _ _ _ Hk), Hk.
        reflexivity.
    - intros u. rewrite S. f_equal.
      unfold running. simpl. rewrite lookup_insert. case_decide as E.
      + subst. rewrite list_lookup_middle by reflexivity.
        destruct (user_queue_tasks c !! u) as [t|] eqn:Rg; [|reflexivity].
        destruct (R _ _ Rg) as (k & Hk & Hu). rewrite Hk.
        destruct k as [u' pc]. simpl in Hu. subst.
        destruct pc; try reflexivity. exfalso. eapply (N _ _ Hk); [reflexivity | discriminate].
      + destruct (user_queue_tasks c !! u) as [t|] eqn:Rg; [|reflexivity].
        destruct (R _ _ Rg) as (k & Hk & Hu). rewrite (lookup_app_l_Some _ _ _ _ Hk), Hk.
        reflexivity. }
  unfold ensure_worker. destruct (user_queue_tasks c !! uid) as [t0|] eqn:Rg.
  - destruct (is_done t0 c) eqn:D; [|split; [split|..]; assumption].
    apply C. intros t k Ht Hu Hl. subst.
    pose proof (L _ _ Ht Hl) as E. rewrite Rg in E. injection E as ->.
    apply is_done_spec in D as [u D]. rewrite Ht in D. injection D as ->. apply Hl. reflexivity.
  - apply C. intros t k Ht Hu Hl. subst.
    pose proof (L _ _ Ht Hl) as E. rewrite Rg in E. discriminate.
Qed.

Lemma enqueue_inv uid job c : sched_inv c → sched_inv (enqueue_user_conversion uid job c).
Proof.
  intros H. unfold enqueue_user_conversion.
  destruct (ensure_queue_inv uid c H) as [H1 H2].
  apply ensure_worker_inv, put_inv; assumption.
Qed.

(** Which registry entry a live task is under. *)
Lemma registered_iff c t k u :
  struct_inv c → task_heap c !! t = Some k → live k →
  user_queue_tasks c !! u = Some t ↔ u = task_user k.
Proof.
  intros [L R _ _ _] Ht Hl. split.
  - intros H. destruct (R _ _ H) as (k' & Hk' & Hu). congruence.
  - intros ->. eapply L; eauto.
Qed.

Lemma waiting_set_pc u t pc c k :
  task_heap c !! t = Some k →
  waiting u (set_pc t pc c) =
    if decide (user_queue_tasks c !! u = Some t)
    then match pc with AwaitGate _ job => [job] | _ => [] end
    else waiting u c.
Proof.
  intros Ht. unfold waiting. simpl. case_decide as E.
  - rewrite E, list_lookup_alter_eq, Ht. reflexivity.
  - destruct (user_queue_tasks c !! u) as [t'|]; [|reflexivity].
    rewrite list_lookup_alter_ne by congruence. reflexivity.
Qed.

Lemma running_set_pc u t pc c k :
  task_heap c !! t = Some k →
  running u (set_pc t pc c) =
    if decide (user_queue_tasks c !! u = Some t)
    then match pc with InGate _ job => [job] | _ => [] end
    else running u c.
Proof.
  intros Ht. unfold running. simpl. case_decide as E.
  - rewrite E, list_lookup_alter_eq, Ht. reflexivity.
  - destruct (user_queue_tasks c !! u) as [t'|]; [|reflexivity].
    rewrite list_lookup_alter_ne by congruence. reflexivity.
Qed.

Lemma set_pc_struct t pc c k :
  struct_inv c → task_heap c !! t = Some k →
  (pc ≠ Finished → user_queue_tasks c !! task_user k = Some t) →
  (∀ q job, pc = AwaitGate q job ∨ pc = InGate q job →
            user_queues c !! task_user k = Some q) →
  struct_inv (set_pc t pc c).
Proof.
  intros [L R A I Hd] Ht Hreg Hq. split; simpl.
  - intros t' k'. rewrite list_lookup_alter. case_decide as E.
    + subst. rewrite Ht. intros [= <-] Hl. simpl in *. apply Hreg, Hl.
    + apply L.
  - intros u t' H. destruct (R _ _ H) as (k' & Hk' & Hu).
    rewrite list_lookup_alter. case_decide as E.
    + subst t'. rewrite Hk'. eexists. split; [reflexivity|]. exact Hu.
    + eauto.
  - exact A.
  - exact I.
  - intros t' k' q job. rewrite list_lookup_alter. case_decide as E.
    + subst. rewrite Ht. intros [= <-] Hpc. simpl in *. eapply Hq, Hpc.
    + apply Hd.
Qed.

(** [q.get()] on the owner's queue. *)
Lemma pop_struct q rest c : struct_inv c → struct_inv (with_queue_heap <[q := rest]> c).
Proof.
  intros [L R A I Hd]. split; simpl; try assumption.
  intros u q' H. rewrite length_insert. eapply A, H.
Qed.

(** The two [pop] calls at the end of the worker. *)
Lemma cleanup_struct u c :
  struct_inv c →
  (∀ t k, task_heap c !! t = Some k → task_user k = u → ¬ live k) →
  struct_inv (with_user_queues (delete u) (with_user_queue_tasks (delete u) c)).
Proof.
  intros [L R A I Hd] N. split; simpl.
  - intros t k Ht Hl. rewrite lookup_delete_ne; [eapply L; eauto|].
    intros E. eapply N; eauto.
  - intros u' t H. apply lookup_delete_Some in H as [_ H]. eapply R, H.
  - intros u' q H. apply lookup_delete_Some in H as [_ H]. eapply A, H.
  - intros u1 u2 q H1 H2. apply lookup_delete_Some in H1 as [_ H1].
    apply lookup_delete_Some in H2 as [_ H2]. eapply I; eauto.
  - intros t k q job Ht Hpc. rewrite lookup_delete_ne; [eapply Hd; eauto|].
    intros E. eapply N; eauto. unfold live. destruct Hpc as [-> | ->]; discriminate.
Qed.

(** The loop head, run by the live task [t] of owner [u] on the owner's
    registered queue: the next job, if any, moves from the queue to the
    task. *)
Lemma worker_loop_spec t u q c k :
  struct_inv c → task_heap c !! t = Some k → task_user k = u → live k →
  user_queues c !! u = Some q →
  let c' := worker_loop t u q c in
  struct_inv c' ∧ journal c' = journal c
  ∧ (∀ u', waiting u' c' ++ on_queue u' c'
           = if decide (u' = u) then on_queue u c else waiting u' c ++ on_queue u' c)
  ∧ (∀ u', running u' c' = if decide (u' = u) then [] else running u' c).
Proof.
  intros Hs Ht Hu Hl Hq c'. subst c'.
  assert (Hreg : ∀ u', user_queue_tasks c !! u' = Some t ↔ u' = u)
    by (intros u'; rewrite (registered_iff c t k u' Hs Ht Hl), Hu; tauto).
  pose proof (inv_qaddr _ Hs _ _ Hq) as Hlen.
  unfold worker_loop. destruct (queue_at q c) as [|job rest] eqn:Q.
  - (* cleanup *)
    change (set_pc t Finished (with_user_queues (delete u)
              (with_user_queue_tasks (delete u) c)))
      with (with_user_queues (delete u) (with_user_queue_tasks (delete u)
              (set_pc t Finished c))).
    assert (Hs1 : struct_inv (set_pc t Finished c)).
    { apply (set_pc_struct t Finished c k Hs Ht); [congruence|].
      intros ? ? [?|?]; discriminate. }
    split; [|split; [reflexivity|split]].
    + apply cleanup_struct; [exact Hs1|].
      intros t' k'. simpl. rewrite list_lookup_alter. case_decide as E.
      * subst t'. rewrite Ht. intros [= <-] _ Hl'. apply Hl'. reflexivity.
      * intros Ht' Hu' Hl'. apply E. symmetry.
        pose proof (inv_live _ Hs _ _ Ht' Hl') as R1. rewrite Hu' in R1.
        pose proof (proj2 (Hreg u) eq_refl) as R2. congruence.
    + intros u'. unfold waiting, on_queue. simpl. case_decide as E.
      * subst u'. rewrite !lookup_delete_eq, Hq. symmetry. exact Q.
      * rewrite !lookup_delete_ne by congruence.
        destruct (user_queue_tasks c !! u') as [t'|] eqn:Rg; [|reflexivity].
        rewrite list_lookup_alter_ne; [reflexivity|].
        intros <-. apply E. apply Hreg, Rg.
    + intros u'. unfold running. simpl. case_decide as E.
      * subst u'. rewrite lookup_delete_eq. reflexivity.
      * rewrite lookup_delete_ne by congruence.
        destruct (user_queue_tasks c !! u') as [t'|] eqn:Rg; [|reflexivity].
        rewrite list_lookup_alter_ne; [reflexivity|].
        intros <-. apply E. apply Hreg, Rg.
  - (* the next job *)
    assert (Hs1 : struct_inv (with_queue_heap <[q := rest]> c)) by (apply pop_struct, Hs).
    split; [|split; [reflexivity|split]].
    + apply (set_pc_struct t _ _ k Hs1 Ht).
      * intros _. simpl. apply Hreg. exact Hu.
      * intros q' job' [H|H]; [|discriminate]. injection H as <- <-. simpl. congruence.
    + intros u'.
      rewrite (waiting_set_pc u' t _ (with_queue_heap <[q:=rest]> c) k Ht). simpl.
      unfold on_queue, queue_at. simpl. case_decide as E.
      * apply Hreg in E. subst u'. rewrite decide_True by reflexivity.
        rewrite Hq. rewrite list_lookup_insert_eq by exact Hlen. simpl.
        unfold queue_at in Q. rewrite Q. reflexivity.
      * rewrite decide_False by (intros ->; apply E, Hreg; reflexivity).
        f_equal. destruct (user_queues c !! u') as [q'|] eqn:Q'; [|reflexivity].
        rewrite list_lookup_insert_ne; [reflexivity|].
        intros <-. apply E, Hreg. eapply (inv_qinj _ Hs); eauto.
    + intros u'. rewrite (running_set_pc u' t _ (with_queue_heap <[q:=rest]> c) k Ht).
      simpl. case_decide as E.
      * apply Hreg in E. subst u'. rewrite decide_True by reflexivity. reflexivity.
      * rewrite decide_False by (intros ->; apply E, Hreg; reflexivity). reflexivity.
Qed.

Lemma waiting_pc u c t k :
  user_queue_tasks c !! u = Some t → task_heap c !! t = Some k →
  waiting u c = match task_pc k with AwaitGate _ job => [job] | _ => [] end.
Proof. intros H1 H2. unfold waiting. rewrite H1, H2. destruct k as [? []]; reflexivity. Qed.

Lemma running_pc u c t k :
  user_queue_tasks c !! u = Some t → task_heap c !! t = Some k →
  running u c = match task_pc k with InGate _ job => [job] | _ => [] end.
Proof. intros H1 H2. unfold running. rewrite H1, H2. destruct k as [? []]; reflexivity. Qed.

Lemma struct_inv_ext c c' :
  queue_heap c' = queue_heap c → user_queues c' = user_queues c →
  task_heap c' = task_heap c → user_queue_tasks c' = user_queue_tasks c →
  struct_inv c → struct_inv c'.
Proof.
  intros E1 E2 E3 E4 [L R A I Hd]. split; rewrite ?E1, ?E2, ?E3, ?E4; assumption.
Qed.

Lemma worker_start_inv t c : sched_inv c → sched_inv (worker_start t c).
Proof.
  intros Hc. pose proof Hc as [Hs F Sr]. unfold worker_start.
  destruct (task_heap c !! t) as [[u pc]|] eqn:Ht; [|exact Hc].
  destruct pc; try exact Hc.
  assert (Hl : live {| task_user := u; task_pc := Created |}) by discriminate.
  pose proof (inv_live _ Hs _ _ Ht Hl) as Hr. simpl in Hr.
  assert (Hreg : ∀ u', user_queue_tasks c !! u' = Some t ↔ u' = u)
    by (intros u'; rewrite (registered_iff c t _ u' Hs Ht Hl); simpl; tauto).
  pose proof (waiting_pc u c t _ Hr Ht) as W. pose proof (running_pc u c t _ Hr Ht) as Rn.
  simpl in W, Rn.
  destruct (user_queues c !! u) as [q|] eqn:Hq.
  - destruct (worker_loop_spec t u q c _ Hs Ht eq_refl Hl Hq) as (Hs' & J & Wq & Rq).
    split; [exact Hs'|..]; intros u'; rewrite J.
    + rewrite F, Wq. case_decide; [subst; rewrite W|]; reflexivity.
    + rewrite Sr, Rq. case_decide; [subst; rewrite Rn|]; reflexivity.
  - split.
    + apply (set_pc_struct t Finished c _ Hs Ht); [congruence|].
      intros ? ? [?|?]; discriminate.
    + intros u'. rewrite (waiting_set_pc u' t _ c _ Ht).
      change (journal (set_pc t Finished c)) with (journal c).
      change (on_queue u' (set_pc t Finished c)) with (on_queue u' c).
      rewrite F. case_decide as E; [apply Hreg in E; subst; rewrite W|]; reflexivity.
    + intros u'. rewrite (running_set_pc u' t _ c _ Ht).
      change (journal (set_pc t Finished c)) with (journal c).
      rewrite Sr. case_decide as E; [apply Hreg in E; subst; rewrite Rn|]; reflexivity.
Qed.

Lemma enter_gate_inv t keys c : sched_inv c → sched_inv (enter_gate t keys c).
Proof.
  intros Hc. pose proof Hc as [Hs F Sr]. unfold enter_gate.
  destruct (task_heap c !! t) as [[u pc]|] eqn:Ht; [|exact Hc].
  destruct pc as [|q job|q job|]; try exact Hc.
  destruct (global_semaphore c) as [|n] eqn:G; [exact Hc|].
  assert (Hl : live {| task_user := u; task_pc := AwaitGate q job |}) by discriminate.
  pose proof (inv_live _ Hs _ _ Ht Hl) as Hr. simpl in Hr.
  assert (Hreg : ∀ u', user_queue_tasks c !! u' = Some t ↔ u' = u)
    by (intros u'; rewrite (registered_iff c t _ u' Hs Ht Hl); simpl; tauto).
  pose proof (waiting_pc u c t _ Hr Ht) as W. pose proof (running_pc u c t _ Hr Ht) as Rn.
  simpl in W, Rn.
  pose proof (inv_holds _ Hs _ _ q job Ht (or_introl eq_refl)) as Hq. simpl in Hq.
  destruct keys.
  - set (c0 := observe (Started u job) (with_global_semaphore (λ _, n) c)).
    assert (Hs0 : struct_inv c0) by (apply (struct_inv_ext c); [reflexivity..|exact Hs]).
    split.
    + apply (set_pc_struct t _ c0 _ Hs0 Ht); [intros _; exact Hr|].
      intros q' job' [H|H]; [discriminate|]. injection H as <- <-. exact Hq.
    + intros u'. rewrite (waiting_set_pc u' t _ c0 _ Ht).
      change (journal (set_pc t (InGate q job) c0)) with (journal c ++ [Started u job]).
      change (on_queue u' (set_pc t (InGate q job) c0)) with (on_queue u' c).
      change (user_queue_tasks c0) with (user_queue_tasks c).
      change (waiting u' c0) with (waiting u' c).
      rewrite submitted_snoc, started_snoc, app_nil_r, F.
      destruct (decide (u' = u)) as [->|N].
      * rewrite !decide_True by (first [reflexivity | exact Hr]).
        rewrite W, <- !app_assoc. reflexivity.
      * rewrite !decide_False by (first [congruence | intros E; apply Hreg in E; congruence]).
        rewrite app_nil_r. reflexivity.
    + intros u'. rewrite (running_set_pc u' t _ c0 _ Ht).
      change (journal (set_pc t (InGate q job) c0)) with (journal c ++ [Started u job]).
      change (user_queue_tasks c0) with (user_queue_tasks c).
      change (running u' c0) with (running u' c).
      rewrite started_snoc, converted_snoc, app_nil_r, Sr.
      destruct (decide (u' = u)) as [->|N].
      * rewrite !decide_True by (first [reflexivity | exact Hr]).
        rewrite Rn, app_nil_r. reflexivity.
      * rewrite !decide_False by (first [congruence | intros E; apply Hreg in E; congruence]).
        rewrite app_nil_r. reflexivity.
  - set (c0 := observe (Converted u job) (with_global_semaphore S
                 (observe (Started u job) (with_global_semaphore (λ _, n) c)))).
    assert (Hs0 : struct_inv c0) by (apply (struct_inv_ext c); [reflexivity..|exact Hs]).
    split.
    + apply (set_pc_struct t _ c0 _ Hs0 Ht); [congruence|].
      intros ? ? [?|?]; discriminate.
    + intros u'. rewrite (waiting_set_pc u' t _ c0 _ Ht).
      change (journal (set_pc t Finished c0))
        with ((journal c ++ [Started u job]) ++ [Converted u job]).
      change (on_queue u' (set_pc t Finished c0)) with (on_queue u' c).
      change (user_queue_tasks c0) with (user_queue_tasks c).
      change (waiting u' c0) with (waiting u' c).
      rewrite !submitted_snoc, !started_snoc, !app_nil_r, F.
      destruct (decide (u' = u)) as [->|N].
      * rewrite !decide_True by (first [reflexivity | exact Hr]).
        rewrite W, <- !app_assoc. reflexivity.
      * rewrite !decide_False by (first [congruence | intros E; apply Hreg in E; congruence]).
        rewrite app_nil_r. reflexivity.
    + intros u'. rewrite (running_set_pc u' t _ c0 _ Ht).
      change (journal (set_pc t Finished c0))
        with ((journal c ++ [Started u job]) ++ [Converted u job]).
      change (user_queue_tasks c0) with (user_queue_tasks c).
      change (running u' c0) with (running u' c).
      rewrite !started_snoc, !converted_snoc, !app_nil_r, Sr.
      destruct (decide (u' = u)) as [->|N].
      * rewrite !decide_True by (first [reflexivity | exact Hr]).
        rewrite Rn, !app_nil_r. reflexivity.
      * rewrite !decide_False by (first [congruence | intros E; apply Hreg in E; congruence]).
        rewrite !app_nil_r. reflexivity.
Qed.

Lemma leave_gate_inv t returned c : sched_inv c → sched_inv (leave_gate t returned c).
Proof.
  intros Hc. pose proof Hc as [Hs F Sr]. unfold leave_gate.
  destruct (task_heap c !! t) as [[u pc]|] eqn:Ht; [|exact Hc].
  destruct pc as [|q job|q job|]; try exact Hc.
  assert (Hl : live {| task_user := u; task_pc := InGate q job |}) by discriminate.
  pose proof (inv_live _ Hs _ _ Ht Hl) as Hr. simpl in Hr.
  assert (Hreg : ∀ u', user_queue_tasks c !! u' = Some t ↔ u' = u)
    by (intros u'; rewrite (registered_iff c t _ u' Hs Ht Hl); simpl; tauto).
  pose proof (waiting_pc u c t _ Hr Ht) as W. pose proof (running_pc u c t _ Hr Ht) as Rn.
  simpl in W, Rn.
  pose proof (inv_holds _ Hs _ _ q job Ht (or_intror eq_refl)) as Hq. simpl in Hq.
  set (c0 := observe (Converted u job) (with_global_semaphore S c)).
  assert (Hs0 : struct_inv c0) by (apply (struct_inv_ext c); [reflexivity..|exact Hs]).
  destruct returned.
  - destruct (worker_loop_spec t u q c0 _ Hs0 Ht eq_refl Hl Hq) as (Hs' & J & Wq & Rq).
    split; [exact Hs'|..]; intros u'; rewrite J;
      change (journal c0) with (journal c ++ [Converted u job]).
    + rewrite submitted_snoc, started_snoc, !app_nil_r, F, Wq.
      change (on_queue u c0) with (on_queue u c).
      change (waiting u' c0) with (waiting u' c).
      change (on_queue u' c0) with (on_queue u' c).
      case_decide; [subst; rewrite W|]; reflexivity.
    + rewrite started_snoc, converted_snoc, app_nil_r, Sr, Rq.
      change (running u' c0) with (running u' c).
      destruct (decide (u' = u)) as [->|N].
      * rewrite !decide_True by reflexivity. rewrite Rn, app_nil_r. reflexivity.
      * rewrite !decide_False by congruence. rewrite app_nil_r. reflexivity.
  - split.
    + apply (set_pc_struct t _ c0 _ Hs0 Ht); [congruence|].
      intros ? ? [?|?]; discriminate.
    + intros u'. rewrite (waiting_set_pc u' t _ c0 _ Ht).
      change (journal (set_pc t Finished c0)) with (journal c ++ [Converted u job]).
      change (on_queue u' (set_pc t Finished c0)) with (on_queue u' c).
      change (user_queue_tasks c0) with (user_queue_tasks c).
      change (waiting u' c0) with (waiting u' c).
      rewrite submitted_snoc, started_snoc, !app_nil_r, F.
      destruct (decide (u' = u)) as [->|N].
      * rewrite !decide_True by (first [reflexivity | exact Hr]). rewrite W. reflexivity.
      * rewrite !decide_False by (first [congruence | intros E; apply Hreg in E; congruence]).
        reflexivity.
    + intros u'. rewrite (running_set_pc u' t _ c0 _ Ht).
      change (journal (set_pc t Finished c0)) with (journal c ++ [Converted u job]).
      change (user_queue_tasks c0) with (user_queue_tasks c).
      change (running u' c0) with (running u' c).
      rewrite started_snoc, converted_snoc, app_nil_r, Sr.
      destruct (decide (u' = u)) as [->|N].
      * rewrite !decide_True by (first [reflexivity | exact Hr]).
        rewrite Rn, app_nil_r. reflexivity.
      * rewrite !decide_False by (first [congruence | intros E; apply Hreg in E; congruence]).
        rewrite app_nil_r. reflexivity.
Qed.

Lemma act_inv x c : sched_inv c → sched_inv (act x c).
Proof.
  destruct x; simpl;
    [apply enqueue_inv | apply worker_start_inv | apply enter_gate_inv | apply leave_gate_inv].
Qed.

Lemma run_inv cfg evs s : sched_inv (sched s) → sched_inv (sched (run cfg evs s)).
Proof.
  revert s. induction evs as [|e evs IH]; intros s H; simpl; [exact H|].
  apply IH. destruct (step_sched cfg e s) as [-> | [x ->]]; [exact H|].
  apply act_inv, H.
Qed.

End Workers.



(** ** What an event may touch *)

#[global] Hint Rewrite state_at_store state_at_call state_at_with_user_state state_at_with_db
  state_at_with_sched state_at_with_payloads state_at_with_finalizers state_at_pop
  state_at_fresh : sys.

Ltac frame_dict :=
  repeat first [ rewrite state_at_store_ne by (congruence || lia)
               | progress autorewrite with sys ].

Section Footprint.

Context (cfg : Config).

Lemma acts_for_same u s s' :
  heap s' = heap s → heap_next s' = heap_next s →
  (∀ u' b, user_state s' !! u' = Some b → user_state s !! u' = Some b) →
  (∀ u', u' ≠ u → users (db s') !! u' = users (db s) !! u') →
  acts_for u s s'.
Proof.
  intros E1 E2 E3 E4. split.
  - rewrite E2. lia.
  - intros u' b H. left. apply E3, H.
  - intros b _ _. unfold state_at. rewrite E1. reflexivity.
  - exact E4.
Qed.

Lemma insert_or_ignore_other u r (m : gmap Z User) u' :
  u' ≠ u → insert_or_ignore u r m !! u' = m !! u'.
Proof.
  intros N. unfold insert_or_ignore.
  destruct (m !! u); [reflexivity|]. rewrite lookup_insert_ne by congruence. reflexivity.
Qed.

Lemma create_or_update_user_other u un fn c d u' :
  u' ≠ u → users (create_or_update_user u un fn c d) !! u' = users d !! u'.
Proof.
  intros N. unfold create_or_update_user. simpl.
  rewrite lookup_alter_ne by congruence. apply insert_or_ignore_other, N.
Qed.

Lemma handle_start_text_frame uid chat_id message_id uname fname text now s :
  acts_for uid s (handle_start_text uid chat_id message_id uname fname text now s).
Proof.
  unfold handle_start_text.
  destruct text as [| |t].
  - apply acts_for_same; try (repeat case_match; reflexivity).
    + intros u' b. repeat case_match; simpl; tauto.
    + intros u' N. repeat case_match; simpl; rewrite ?lookup_alter_ne by congruence;
        apply insert_or_ignore_other, N.
  - apply acts_for_same; try reflexivity; [tauto|].
    intros u' N. apply create_or_update_user_other, N.
  - unfold start_search_flow. destruct (String.eqb t "").
    + apply acts_for_same; try reflexivity; [tauto|].
      intros u' N. apply create_or_update_user_other, N.
    + split; simpl.
      * lia.
      * intros u b. rewrite lookup_insert.
        case_decide; [intros [= <-]; subst; right; repeat split; lia | tauto].
      * intros b Hb _. unfold state_at. simpl. rewrite lookup_insert_ne by lia. reflexivity.
      * intros u' N. apply create_or_update_user_other, N.
Qed.

(** [state = user_state.get(user_id, {})]: the owner's current dict, or a new
    one. *)
Lemma get_state_frame uid s :
  let '(a, s0) := get_state uid s in
  db s0 = db s
  ∧ ((user_state s !! uid = Some a ∧ s0 = s)
     ∨ (user_state s !! uid = None ∧ a = heap_next s
        ∧ heap_next s0 = S (heap_next s) ∧ user_state s0 = user_state s
        ∧ ∀ b, (b < heap_next s)%nat → state_at b s0 = state_at b s)).
Proof.
  unfold get_state. destruct (user_state s !! uid) as [a|] eqn:U; simpl.
  - split; [reflexivity|]. left. tauto.
  - split; [reflexivity|]. right. repeat split.
    intros b Hb. unfold state_at. simpl. rewrite lookup_insert_ne by lia. reflexivity.
Qed.

Lemma callback_type_frame uid chat_id message_id typ s :
  acts_for uid s (callback_type uid chat_id message_id typ s).
Proof.
  unfold callback_type. pose proof (get_state_frame uid s) as G.
  destruct (get_state uid s) as [a s0].
  destruct G as [Gd [[U ->] | (U & -> & Gn & Gu & Gs)]]; split; simpl.
  - lia.
  - intros u b. rewrite lookup_insert. case_decide; [intros [= <-]; subst; tauto | tauto].
  - intros b _ Hb. frame_dict. reflexivity.
  - reflexivity.
  - rewrite Gn. lia.
  - intros u b. rewrite lookup_insert, Gu.
    case_decide; [intros [= <-]; subst; right; repeat split; rewrite Gn; lia | tauto].
  - intros b Hb _. frame_dict. apply Gs, Hb.
  - intros u' _. rewrite Gd. reflexivity.
Qed.

Lemma select_quality_frame uid chat_id message_id kval s :
  let '(a, cost, s0) := select_quality uid chat_id message_id kval s in
  ((user_state s !! uid = Some a ∧ heap_next s0 = heap_next s)
   ∨ (user_state s !! uid = None ∧ a = heap_next s ∧ heap_next s0 = S (heap_next s)))
  ∧ (∀ b, (b < heap_next s)%nat → b ≠ a → state_at b s0 = state_at b s).
Proof.
  unfold select_quality. pose proof (get_state_frame uid s) as G.
  destruct (get_state uid s) as [a s0].
  destruct G as [Gd [[U ->] | (U & -> & Gn & Gu & Gs)]]; simpl.
  - split; [left; tauto|]. intros b _ Hb. frame_dict. reflexivity.
  - split; [right; tauto|]. intros b Hb _. frame_dict. apply Gs, Hb.
Qed.

Lemma bump_other uid now d u' :
  u' ≠ uid → users (bump_user_daily_count uid now d) !! u' = users d !! u'.
Proof.
  intros N. unfold bump_user_daily_count.
  destruct (users d !! uid); [case_decide|]; simpl;
    rewrite ?lookup_alter_ne by congruence; try reflexivity.
  apply insert_or_ignore_other, N.
Qed.

Lemma increment_other uid typ d u' :
  u' ≠ uid → users (increment_counter uid typ d) !! u' = users d !! u'.
Proof. intros N. destruct typ as [[]|]; simpl; rewrite lookup_alter_ne by congruence; reflexivity. Qed.

Lemma decrement_other uid typ d u' :
  u' ≠ uid → users (decrement_counter uid typ d) !! u' = users d !! u'.
Proof. intros N. destruct typ as [[]|]; simpl; rewrite lookup_alter_ne by congruence; reflexivity. Qed.

Lemma refund_other uid c d u' :
  u' ≠ uid → users (refund_coins uid c d) !! u' = users d !! u'.
Proof. intros N. simpl. rewrite lookup_alter_ne by congruence. reflexivity. Qed.

Lemma booked_other uid typ cost clk d u' :
  u' ≠ uid →
  users (increment_counter uid typ
           (set_user_last_conversion uid (now_stamp clk)
              (bump_user_daily_count uid (now_bump clk) (debit uid cost d)))) !! u'
  = users d !! u'.
Proof.
  intros N. rewrite increment_other by exact N.
  unfold set_user_last_conversion. simpl. rewrite lookup_alter_ne by congruence.
  rewrite bump_other by exact N. simpl. rewrite lookup_alter_ne by congruence. reflexivity.
Qed.

Lemma callback_quality_frame uid chat_id message_id kval clk s :
  acts_for uid s (snd (callback_quality cfg uid chat_id message_id kval clk s)).
Proof.
  destruct (callback_quality cfg uid chat_id message_id kval clk s) as [o s'] eqn:H.
  simpl.
  pose proof (select_quality_spec uid chat_id message_id kval s) as Q.
  pose proof (select_quality_frame uid chat_id message_id kval s) as Fr.
  assert (K : ∀ a s0, heap_next s' = heap_next s0 →
              ((user_state s !! uid = Some a ∧ heap_next s0 = heap_next s)
               ∨ (user_state s !! uid = None ∧ a = heap_next s
                  ∧ heap_next s0 = S (heap_next s))) →
              (∀ u b, user_state s' !! u = Some b → <[uid := a]> (user_state s) !! u = Some b) →
              (∀ b, (b < heap_next s)%nat → b ≠ a → state_at b s' = state_at b s) →
              (∀ u, u ≠ uid → users (db s') !! u = users (db s) !! u) →
              acts_for uid s s').
  { intros a s0 En Ha Hu Hd Hr. split.
    - rewrite En. destruct Ha as [[_ ->] | (_ & _ & ->)]; lia.
    - intros u b Hb. apply Hu in Hb. rewrite lookup_insert in Hb.
      case_decide; [|tauto]. injection Hb as <-. subst u.
      destruct Ha as [[? _] | (_ & -> & Hn)]; [tauto|].
      right. repeat split. rewrite En, Hn. lia.
    - intros b Hb Hn. apply Hd; [exact Hb|].
      destruct Ha as [[? _] | (_ & -> & _)]; [congruence | lia].
    - exact Hr. }
  assert (R : (∀ i, o ≠ Accepted i) → acts_for uid s s').
  { intros Hr. pose proof (refused_db cfg _ _ _ _ _ _ _ _ H Hr) as Hdb.
    unfold callback_quality in H.
    destruct (select_quality uid chat_id message_id kval s) as [[a0 cost] s0].
    destruct Q as (_ & Qd & _ & _ & _ & Qu & _). destruct Fr as [Fa Fd].
    apply (K a0 s0); try assumption.
    - repeat case_match; simplify_eq; try reflexivity;
        exfalso; eapply Hr; reflexivity.
    - intros u b Hb. rewrite <- Qu.
      repeat case_match; simplify_eq; simpl in Hb;
        try (apply lookup_delete_Some in Hb as [_ Hb]; exact Hb);
        exfalso; eapply Hr; reflexivity.
    - intros b Hb Hn. rewrite <- (Fd b Hb Hn).
      repeat case_match; simplify_eq; try reflexivity;
        exfalso; eapply Hr; reflexivity.
    - intros u _. rewrite Hdb. reflexivity. }
  destruct o as [i| | |]; try (apply R; discriminate).
  destruct (accepted_spec cfg _ _ _ _ _ _ _ _ H)
    as (a & row & Hrl & Hrow & _ & _ & _ & Hus & Ha & _).
  unfold callback_quality in H.
  destruct (select_quality uid chat_id message_id kval s) as [[a0 cost] s0].
  destruct Q as (-> & Qd & Qs & Qf & Qp & Qu & _). destruct Fr as [Fa Fd].
  rewrite Qd, Hrl in H.
  destruct (deduct_coins uid _ _) as [[] d1]; cbn [negb] in H; [|congruence].
  destruct (book _ _ _ _ _ _ _) as [i' d2]. injection H as <- <-.
  apply (K a0 s0); try assumption.
  - reflexivity.
  - intros u b. simpl. rewrite Qu, insert_insert_eq. tauto.
  - intros b Hb Hn. unfold queue_job. frame_dict. apply Fd; assumption.
  - intros u N. rewrite Hus. apply booked_other, N.
Qed.

Ltac keeps_walk Hc Hr Hd Hm1 Hm2 :=
  repeat first [ apply keeps_bind; [|intros _] | apply keeps_try_except
               | apply keeps_transport, Hc | apply keeps_ret
               | apply keeps_store_op; first [apply Hr | apply Hd | apply Hm1 | apply Hm2]
               | destruct (truthy _) ].

Lemma deliver_keeps {A} (proj : Sys → A) env uid chat cost mid ttl path typ conv :
  untouched proj uid → keeps proj (deliver env uid chat cost mid ttl path typ conv).
Proof.
  intros (Hc & Hr & Hd & Hm1 & Hm2). unfold deliver, ignoring.
  keeps_walk Hc Hr Hd Hm1 Hm2.
Qed.

Lemma conversion_failed_keeps {A} (proj : Sys → A) env uid chat cost mid ttl diag typ conv :
  untouched proj uid → keeps proj (conversion_failed env uid chat cost mid ttl diag typ conv).
Proof.
  intros (Hc & Hr & Hd & Hm1 & Hm2). unfold conversion_failed, ignoring.
  keeps_walk Hc Hr Hd Hm1 Hm2.
Qed.

(** The finaliser either raises at once, or runs one of its two branches and
    then deletes the status message and pops the owner's [user_state]. *)
Lemma finalizer_shape env p a uid s :
  snd (async_finalize_and_update env p a uid s) = s
  ∨ ∃ s1 c, snd (async_finalize_and_update env p a uid s) = pop_user_state uid (call c true s1)
            ∧ ∀ A (proj : Sys → A), untouched proj uid → proj s1 = proj s.
Proof.
  unfold async_finalize_and_update.
  destruct (st_chat_id (state_at a s)) as [chat|]; [|left; reflexivity].
  destruct (st_cost (state_at a s)) as [cost|]; [|left; reflexivity].
  right. unfold try_finally.
  match goal with |- context [let '(r, s') := ?m s in _] =>
    assert (K : ∀ A (proj : Sys → A), untouched proj uid → keeps proj m)
      by (intros A proj U; destruct (filepath p); [destruct (file_exists env)|];
          first [apply deliver_keeps | apply conversion_failed_keeps]; exact U);
    destruct (m s) as [r s1] eqn:E end.
  exists s1, (delete_message chat (st_status_msg_id (state_at a s))). split; [reflexivity|].
  intros A proj U. specialize (K A proj U s). rewrite E in K. exact K.
Qed.

Lemma finalizer_frame env p a uid s :
  acts_for uid s (snd (async_finalize_and_update env p a uid s)).
Proof.
  destruct (finalizer_shape env p a uid s) as [-> | (s1 & c & -> & K)].
  - apply acts_for_same; auto.
  - apply acts_for_same; simpl.
    + apply (K _ heap). repeat split.
    + apply (K _ heap_next). repeat split.
    + intros u b H. apply lookup_delete_Some in H as [_ H].
      rewrite <- (K _ user_state); [exact H | repeat split].
    + intros u N. apply (K _ (fun s => users (db s) !! u)).
      repeat split; intros; simpl; rewrite ?conversions_after_refund;
        first [ apply refund_other; congruence | apply decrement_other; congruence
              | reflexivity ].
Qed.

Lemma step_frame e s : acts_for (actor e s) s (step cfg e s).
Proof.
  destruct e as [uid chat mid un fn text now | uid chat mid typ | uid chat mid kval clk
                | t | t r | f env]; simpl.
  - apply handle_start_text_frame.
  - apply callback_type_frame.
  - apply callback_quality_frame.
  - unfold worker_run; repeat case_match; apply acts_for_same; simpl; auto.
  - unfold conversion_done, blocking_download_and_process;
      repeat case_match; simplify_eq; apply acts_for_same; simpl; auto.
  - unfold finalizer_run.
    destruct (finalizers s !! f) as [[fin|]|]; [|apply acts_for_same; auto..].
    pose proof (finalizer_frame env (fin_progress fin) (fin_state fin) (fin_user fin)
                  (with_finalizers <[f:=None]> s)) as [F1 F2 F3 F4].
    split; assumption.
Qed.

(** An event that touches neither dicts nor rows. *)
Lemma step_silent e s u :
  silent e s = true → acts_for u s (step cfg e s).
Proof.
  destruct e as [uid chat mid un fn text now | uid chat mid typ | uid chat mid kval clk
                | t | t r | f env]; simpl; try discriminate.
  - intros _. unfold worker_run; repeat case_match; apply acts_for_same; simpl; auto.
  - intros _. unfold conversion_done, blocking_download_and_process;
      repeat case_match; simplify_eq; apply acts_for_same; simpl; auto.
  - unfold finalizer_run. destruct (finalizers s !! f) as [[fin|]|]; try discriminate.
    all: intros _; apply acts_for_same; auto.
Qed.

Lemma heap_ok_step e s : heap_ok s → heap_ok (step cfg e s).
Proof.
  intros [Hr Ho]. destruct (step_frame e s) as [F1 F2 _ _]. split.
  - intros u a H. destruct (F2 _ _ H) as [H'|(-> & _ & L)]; [apply Hr in H'; lia | exact L].
  - intros u u' a H H'.
    destruct (F2 _ _ H) as [H1|(E1 & -> & _)]; destruct (F2 _ _ H') as [H2|(E2 & -> & _)];
      try reflexivity.
    + eapply Ho; eauto.
    + subst a. apply Hr in H1. lia.
    + subst a. apply Hr in H2. lia.
Qed.

Lemma heap_ok_run evs s : heap_ok s → heap_ok (run cfg evs s).
Proof.
  revert s. induction evs as [|e evs IH]; intros s H; simpl; [exact H|].
  apply IH, heap_ok_step, H.
Qed.

Lemma heap_ok_init : heap_ok (init cfg).
Proof. split; simpl; intros; simplify_map_eq. Qed.

End Footprint.

(** ** What holds in every state the program reaches *)

Section Reach.

Context (cfg : Config).

Lemma preserves_ret {B} (P : Sys → Prop) (x : B) : preserves P (ret x).
Proof. intros s H. exact H. Qed.

Lemma preserves_bind {B C} (P : Sys → Prop) (m : M B) (k : B → M C) :
  preserves P m → (∀ x, preserves P (k x)) → preserves P (bind m k).
Proof.
  intros Hm Hk s H. unfold bind. specialize (Hm s H).
  destruct (m s) as [[x|] s1]; simpl in *; [|exact Hm].
  apply Hk, Hm.
Qed.

Lemma preserves_try_except (P : Sys → Prop) (m h : M unit) :
  preserves P m → preserves P h → preserves P (try_except m h).
Proof.
  intros Hm Hh s H. unfold try_except. specialize (Hm s H).
  destruct (m s) as [[x|] s1]; simpl in *; [exact Hm|].
  apply Hh, Hm.
Qed.

Lemma preserves_transport (P : Sys → Prop) c b :
  (∀ s, P s → P (call c b s)) → preserves P (transport c b).
Proof. intros H s. apply H. Qed.

Lemma preserves_store_op (P : Sys → Prop) ok f :
  (∀ s, P s → P (with_db f s)) → preserves P (store_op ok f).
Proof. intros H s Hs. unfold store_op. destruct ok; [apply H, Hs | exact Hs]. Qed.

Ltac preserves_walk Hc Hr Hd Hm1 Hm2 :=
  repeat first [ apply preserves_bind; [|intros _] | apply preserves_try_except
               | apply preserves_transport, Hc | apply preserves_ret
               | apply preserves_store_op; first [apply Hr | apply Hd | apply Hm1 | apply Hm2]
               | destruct (truthy _) ].

Lemma finalizer_preserves (P : Sys → Prop) env p a uid s :
  stable P uid → P s → P (snd (async_finalize_and_update env p a uid s)).
Proof.
  intros (Hc & Hr & Hd & Hm1 & Hm2 & Hp) H. unfold async_finalize_and_update.
  destruct (st_chat_id (state_at a s)) as [chat|]; [|exact H].
  destruct (st_cost (state_at a s)) as [cost|]; [|exact H].
  unfold try_finally.
  match goal with |- context [let '(r, s') := ?m s in _] =>
    assert (K : preserves P m)
      by (destruct (filepath p); [destruct (file_exists env)|];
          unfold deliver, conversion_failed, ignoring; preserves_walk Hc Hr Hd Hm1 Hm2);
    specialize (K s H); destruct (m s) as [r s1] end.
  simpl in *. apply Hp, Hc, K.
Qed.

Lemma finalizer_run_preserves (P : Sys → Prop) f env s :
  (∀ uid, stable P uid) → (∀ g s, P s → P (with_finalizers g s)) →
  P s → P (finalizer_run f env s).
Proof.
  intros St Hg H. unfold finalizer_run.
  destruct (finalizers s !! f) as [[fin|]|]; try exact H.
  apply finalizer_preserves; [apply St | apply Hg, H].
Qed.

(** *** Counters are never negative *)

Lemma nonneg_alter (f : User → User) uid d :
  (∀ r, 0 ≤ music_count r ∧ 0 ≤ video_count r →
        0 ≤ music_count (f r) ∧ 0 ≤ video_count (f r)) →
  counters_nonneg d → counters_nonneg (with_users (alter f uid) d).
Proof.
  intros Hf H u row Hl. simpl in Hl.
  apply lookup_alter_Some in Hl as [[-> (x & Hx & ->)] | [? Hx]]; eauto.
Qed.

Lemma nonneg_insert_or_ignore uid r d :
  0 ≤ music_count r ∧ 0 ≤ video_count r →
  counters_nonneg d → counters_nonneg (with_users (insert_or_ignore uid r) d).
Proof.
  intros Hr H u row Hl. simpl in Hl. unfold insert_or_ignore in Hl.
  destruct (users d !! uid) eqn:E; [eauto|].
  apply lookup_insert_Some in Hl as [[-> <-] | [_ Hl]]; eauto.
Qed.

Lemma nonneg_users d d' : users d' = users d → counters_nonneg d → counters_nonneg d'.
Proof. intros E H u row. rewrite E. apply H. Qed.

Lemma nonneg_stable uid : stable (fun s => counters_nonneg (db s)) uid.
Proof.
  split; [|split; [|split; [|split; [|split]]]]; try (intros; assumption).
  - intros c s H. apply nonneg_alter; [|exact H]. intros r. simpl. tauto.
  - intros t s H. apply (counter_op_nonneg (OpDecrement uid t)), H.
Qed.

Lemma nonneg_create uid un fn d :
  counters_nonneg d → counters_nonneg (create_or_update_user uid un fn 0 d).
Proof.
  intros H. unfold create_or_update_user.
  apply (nonneg_alter _ _ (with_users (insert_or_ignore uid (new_user un fn 0)) d));
    [intros r; simpl; tauto|].
  apply nonneg_insert_or_ignore; [simpl; lia | exact H].
Qed.

Lemma nonneg_booked uid typ cost clk d :
  counters_nonneg d →
  counters_nonneg (increment_counter uid typ
                     (set_user_last_conversion uid (now_stamp clk)
                        (bump_user_daily_count uid (now_bump clk) (debit uid cost d)))).
Proof.
  intros H. apply (counter_op_nonneg (OpIncrement uid typ)).
  apply nonneg_alter; [intros r; simpl; tauto|].
  assert (H1 : counters_nonneg (debit uid cost d))
    by (apply nonneg_alter; [intros r; simpl; tauto | exact H]).
  unfold bump_user_daily_count.
  destruct (users (debit uid cost d) !! uid); [case_decide|];
    apply nonneg_alter; try (intros r; simpl; tauto); try exact H1.
  apply nonneg_insert_or_ignore; [simpl; lia | exact H1].
Qed.

Lemma nonneg_step e s : counters_nonneg (db s) → counters_nonneg (db (step cfg e s)).
Proof.
  intros H.
  destruct e as [uid chat mid un fn text now | uid chat mid typ | uid chat mid kval clk
                | t | t r | f env]; simpl.
  - unfold handle_start_text. pose proof (nonneg_create uid un fn _ H) as H1.
    destruct text as [| |ttl].
    + repeat case_match; simpl; try exact H1;
        (apply nonneg_alter; [intros r; simpl; tauto | exact H1]).
    + exact H1.
    + unfold start_search_flow. destruct (String.eqb ttl ""); exact H1.
  - unfold callback_type, get_state. destruct (user_state s !! uid); exact H.
  - destruct (callback_quality cfg uid chat mid kval clk s) as [o s'] eqn:E. simpl.
    destruct o as [i| | |];
      try (rewrite (refused_db cfg _ _ _ _ _ _ _ _ E) by discriminate; exact H).
    destruct (accepted_spec cfg _ _ _ _ _ _ _ _ E) as (a & row & _ & _ & _ & _ & _ & Hu & _).
    eapply nonneg_users; [exact Hu|]. apply nonneg_booked, H.
  - rewrite worker_run_db. exact H.
  - rewrite conversion_done_db. exact H.
  - apply (finalizer_run_preserves (fun s => counters_nonneg (db s)));
      [apply nonneg_stable | intros; assumption | exact H].
Qed.

Lemma nonneg_reachable s : reachable cfg s → counters_nonneg (db s).
Proof.
  intros [evs ->]. unfold run. rewrite <- fold_left_rev_right.
  induction (rev evs) as [|e l IH]; simpl.
  - intros u r Hl. simpl in Hl. rewrite lookup_empty in Hl. discriminate.
  - apply nonneg_step, IH.
Qed.

(** *** Rows are never deleted *)

Lemma has_row_stable i uid : stable (has_row i) uid.
Proof.
  split; [|split; [|split; [|split; [|split]]]]; try (intros; assumption).
  - intros t s H. destruct t as [[]|]; exact H.
  - intros j s (c & Hc & Hi). eexists. split.
    + simpl. unfold update_where_id. apply list_elem_of_fmap. exists c. split; [reflexivity|exact Hc].
    + simpl. destruct (id c =? j); simpl; exact Hi.
  - intros j s (c & Hc & Hi). eexists. split.
    + simpl. unfold update_where_id. apply list_elem_of_fmap. exists c. split; [reflexivity|exact Hc].
    + simpl. destruct (id c =? j); simpl; exact Hi.
Qed.

Lemma handle_start_text_rows uid chat_id message_id uname fname text now s :
  conversions (db (handle_start_text uid chat_id message_id uname fname text now s))
  = conversions (db s).
Proof.
  unfold handle_start_text, start_search_flow, alloc.
  destruct text; repeat case_match; simplify_eq; reflexivity.
Qed.

Lemma has_row_step i e s : has_row i s → has_row i (step cfg e s).
Proof.
  intros H.
  destruct e as [uid chat mid un fn text now | uid chat mid typ | uid chat mid kval clk
                | t | t r | f env]; simpl.
  - unfold has_row. rewrite handle_start_text_rows. exact H.
  - unfold callback_type, get_state. destruct (user_state s !! uid); exact H.
  - destruct (callback_quality cfg uid chat mid kval clk s) as [o s'] eqn:E. simpl.
    unfold has_row.
    destruct o as [j| | |];
      try (rewrite (refused_db cfg _ _ _ _ _ _ _ _ E) by discriminate; exact H).
    destruct (accepted_spec cfg _ _ _ _ _ _ _ _ E) as (a & row & _ & _ & _ & _ & Hc & _).
    destruct H as (c & Hin & Hi). exists c. split; [|exact Hi].
    rewrite Hc. apply elem_of_app. left. exact Hin.
  - unfold has_row. rewrite worker_run_db. exact H.
  - unfold has_row. rewrite conversion_done_db. exact H.
  - apply (finalizer_run_preserves (has_row i));
      [apply has_row_stable | intros; assumption | exact H].
Qed.

Lemma has_row_run i evs s : has_row i s → has_row i (run cfg evs s).
Proof.
  revert s. induction evs as [|e evs IH]; intros s H; simpl; [exact H|].
  apply IH, has_row_step, H.
Qed.

(** *** The journal grows; finalisers come from conversions that returned *)

Lemma worker_loop_journal t uid q c : journal (worker_loop t uid q c) = journal c.
Proof. unfold worker_loop. destruct (queue_at q c); reflexivity. Qed.

Lemma act_journal x c : ∃ l, journal (act x c) = journal c ++ l.
Proof.
  destruct x as [uid job | t | t keys | t returned]; simpl.
  - exists [Submitted uid job].
    unfold enqueue_user_conversion, ensure_worker, create_worker, put, ensure_queue.
    repeat case_match; reflexivity.
  - exists []. rewrite app_nil_r. unfold worker_start.
    repeat case_match; simplify_eq; try reflexivity. apply worker_loop_journal.
  - unfold enter_gate. repeat case_match; simplify_eq;
      try (exists []; rewrite app_nil_r; reflexivity).
    + eexists. simpl. reflexivity.
    + eexists. simpl. rewrite <- app_assoc. reflexivity.
  - unfold leave_gate. repeat case_match; simplify_eq;
      try (exists []; rewrite app_nil_r; reflexivity).
    + eexists. rewrite worker_loop_journal. simpl. reflexivity.
    + eexists. simpl. reflexivity.
Qed.

Lemma step_journal e s : ∃ l, journal (sched (step cfg e s)) = journal (sched s) ++ l.
Proof.
  destruct (step_sched cfg e s) as [-> | [x ->]].
  - exists []. rewrite app_nil_r. reflexivity.
  - apply act_journal.
Qed.

Lemma handle_start_text_finalizers uid chat_id message_id uname fname text now s :
  finalizers (handle_start_text uid chat_id message_id uname fname text now s) = finalizers s.
Proof.
  unfold handle_start_text, start_search_flow, alloc.
  destruct text; repeat case_match; simplify_eq; reflexivity.
Qed.

Lemma callback_quality_finalizers uid chat_id message_id kval clk s :
  finalizers (snd (callback_quality cfg uid chat_id message_id kval clk s)) = finalizers s.
Proof.
  destruct (callback_quality cfg uid chat_id message_id kval clk s) as [o s'] eqn:H.
  simpl. destruct o.
  - apply accepted_spec in H. cbv zeta in H. destruct H as (a & row & H). tauto.
  - unfold callback_quality in H.
    pose proof (select_quality_spec uid chat_id message_id kval s) as Q.
    destruct (select_quality _ _ _ _ s) as [[a cost] s0]. destruct Q as (_ & _ & _ & Q & _).
    repeat case_match; simplify_eq; exact Q.
  - unfold callback_quality in H.
    pose proof (select_quality_spec uid chat_id message_id kval s) as Q.
    destruct (select_quality _ _ _ _ s) as [[a cost] s0]. destruct Q as (_ & _ & _ & Q & _).
    repeat case_match; simplify_eq; exact Q.
  - unfold callback_quality in H.
    pose proof (select_quality_spec uid chat_id message_id kval s) as Q.
    destruct (select_quality _ _ _ _ s) as [[a cost] s0]. destruct Q as (_ & _ & _ & Q & _).
    repeat case_match; simplify_eq; exact Q.
Qed.

Lemma step_finalizers e s f fin :
  finalizers (step cfg e s) !! f = Some (Some fin) →
  finalizers s !! f = Some (Some fin)
  ∨ ∃ t r q job, e = EvConverted t r
      ∧ task_heap (sched s) !! t = Some {| task_user := fin_user fin; task_pc := InGate q job |}
      ∧ fin_state fin = job_state job.
Proof.
  destruct e as [uid chat mid un fn text now | uid chat mid typ | uid chat mid kval clk
                | t | t r | f0 env]; simpl.
  - rewrite handle_start_text_finalizers. auto.
  - unfold callback_type, get_state. destruct (user_state s !! uid); auto.
  - rewrite callback_quality_finalizers. auto.
  - unfold worker_run. repeat case_match; auto.
  - unfold conversion_done, blocking_download_and_process.
    destruct (task_heap (sched s) !! t) as [[u [| | q job |]]|] eqn:T; auto.
    destruct (progress_of r) as [p|]; simpl; auto.
    intros H. apply lookup_app_Some in H as [H | [_ H]]; [auto|].
    right. exists t, r, q, job. apply list_lookup_singleton_Some in H as [_ H].
    injection H as <-. auto.
  - unfold finalizer_run. destruct (finalizers s !! f0) as [[fin0|]|] eqn:F; auto.
    rewrite (finalizer_keeps finalizers) by reflexivity. simpl.
    intros H. apply list_lookup_insert_Some in H as [(_ & H & _) | [_ H]]; [discriminate | auto].
Qed.

Lemma converted_app u j l : converted u (j ++ l) = converted u j ++ converted u l.
Proof. apply omap_app. Qed.

Lemma fin_inv_step e s : fin_inv s → fin_inv (step cfg e s).
Proof.
  intros H f fin Hf.
  destruct (step_finalizers e s f fin Hf) as [Hold | (t & r & q & job & -> & T & Hj)].
  - destruct (H f fin Hold) as (job & Hs & Hin). exists job. split; [exact Hs|].
    destruct (step_journal e s) as [l ->]. rewrite converted_app. apply elem_of_app. auto.
  - exists job. split; [congruence|]. simpl.
    unfold conversion_done, blocking_download_and_process. rewrite T.
    assert (J : ∀ b, journal (leave_gate t b (sched s))
                     = journal (sched s) ++ [Converted (fin_user fin) job]).
    { intros b. unfold leave_gate. rewrite T. destruct b; [rewrite worker_loop_journal|];
        reflexivity. }
    destruct (progress_of r); simpl; rewrite J, converted_snoc, decide_True by reflexivity;
      apply elem_of_app; right; apply list_elem_of_singleton; reflexivity.
Qed.

Lemma fin_inv_reachable s : reachable cfg s → fin_inv s.
Proof.
  intros [evs ->]. unfold run. rewrite <- fold_left_rev_right.
  induction (rev evs) as [|e l IH]; simpl.
  - intros f fin H. simpl in H. discriminate.
  - apply fin_inv_step, IH.
Qed.

Lemma heap_ok_reachable s : reachable cfg s → heap_ok s.
Proof. intros [evs ->]. apply heap_ok_run, heap_ok_init. Qed.

Lemma sched_inv_reachable s : reachable cfg s → sched_inv (sched s).
Proof. intros [evs ->]. apply run_inv. simpl. apply init_sched_inv. Qed.

Lemma reachable_run evs s : reachable cfg s → reachable cfg (run cfg evs s).
Proof.
  intros [evs0 ->]. exists (evs0 ++ evs). unfold run. rewrite fold_left_app. reflexivity.
Qed.

(** *** Events foreign to an owner leave the owner's job alone *)

Lemma quiet_step uid a s1 e s :
  foreign uid e s → job_frame uid a s1 s → job_frame uid a s1 (step cfg e s).
Proof.
  intros Hf [Jr Jo Jd Jw].
  assert (F : ∃ u, u ≠ uid ∧ acts_for u s (step cfg e s)).
  { destruct Hf as [Hs | Hn].
    - exists (uid + 1). split; [lia|]. apply step_silent, Hs.
    - exists (actor e s). split; [exact Hn|]. apply step_frame. }
  destruct F as (u & Hu & [F1 F2 F3 F4]). split.
  - lia.
  - intros u' H. destruct (F2 _ _ H) as [H' | (E & _ & _)]; [apply Jo, H' | lia].
  - rewrite F3; [exact Jd | exact Jr |]. intros H. apply Jo in H. congruence.
  - rewrite F4 by congruence. exact Jw.
Qed.

Lemma quiet_run uid a s1 evs s :
  quiet cfg uid evs s → job_frame uid a s1 s → job_frame uid a s1 (run cfg evs s).
Proof.
  revert s. induction evs as [|e evs IH]; intros s Hq H; simpl; [exact H|].
  destruct Hq as [Hf Hq]. apply IH; [exact Hq|]. apply quiet_step; assumption.
Qed.

(** *** A job whose production fails *)

(** The production-failure branch on every path: what is written depends on
    which of the three store calls return. *)
Lemma finalize_failure env p a uid s chat cost i :
  st_chat_id (state_at a s) = Some chat →
  st_cost (state_at a s) = Some cost →
  st_conversion_id (state_at a s) = Some i → i ≠ 0 →
  produced env p = false →
  let s' := snd (async_finalize_and_update env p a uid s) in
  let typ := st_type (state_at a s) in
  db s' = (if mark_ok env
           then if refund_ok env
                then if decrement_ok env
                     then decrement_counter uid typ
                            (refund_coins uid cost (mark_conversion_failed i (db s)))
                     else refund_coins uid cost (mark_conversion_failed i (db s))
                else mark_conversion_failed i (db s)
           else db s)
  ∧ (mark_ok env = true →
     (edit_message_text (Some chat) (st_status_msg_id (state_at a s))
        (StatusError (default "(unknown)"%string (st_title (state_at a s))) (status_text p)),
      edit_ok env) ∈ outbox s'
     ∧ (edit_ok env = false →
        (send_message chat (ConversionFailed (status_text p)), fallback_ok env) ∈ outbox s')).
Proof.
  intros Hchat Hcost Hconv Hi Hp. cbv zeta.
  assert (Hp' : filepath p = None ∨ file_exists env = false)
    by (unfold produced in Hp; destruct (filepath p); auto).
  fin_unfold. rewrite Hchat, Hcost, Hconv.
  destruct (Z.eqb_spec i 0) as [|_]; [contradiction|].
  destruct Hp' as [-> | Hfe]; [|rewrite Hfe; destruct (filepath p)];
    destruct (mark_ok env), (refund_ok env), (decrement_ok env), (edit_ok env), (fallback_ok env);
    cbn -[decrement_counter refund_coins mark_conversion_failed];
    (split; [reflexivity|]); intros; try discriminate;
    rewrite !elem_of_app, !list_elem_of_singleton;
    (split; [tauto | intros; try discriminate; tauto]).
Qed.

(** C8, as the program is. A request of [uid] is admitted as conversion [i]
    in a state the program reaches; events follow, none of them a message, a
    click or a finaliser of the same owner; then a finaliser of the owner
    that holds the state dict of the job runs, and production has failed
    (yt-dlp raised, or the file is not there).

    - The row is stored with status [done] at admission: the table has no
      value for a queued or a running job.
    - A job holding the dict was submitted, was started (its worker entered
      the gate) and its conversion returned, before the finaliser runs.
    - Just before the finaliser the balance is the balance before admission
      minus the cost, and the counter of the job's kind is one more than
      before admission.
    - When [mark_conversion_failed] returns, every row with key [i] reads
      [failed] and there is such a row; the status message is edited to show
      the diagnostic text, and when that edit is refused the text is sent as
      a new message. When it raises, the exception leaves the coroutine: no
      row is changed and nothing is refunded.
    - The balance is back at its value before admission exactly when
      [mark_conversion_failed] and [refund_coins] return; the counter is back
      (one less than before the finaliser) exactly when [decrement_counter]
      returns too. An exception of [refund_coins] or [decrement_counter] is
      swallowed: the row reads [failed] and the balance, or the counter,
      stays as admission left it. *)
Theorem production_failure_run uid chat_id message_id kval clk s i s1 evs f fin env chat :
  reachable cfg s →
  callback_quality cfg uid chat_id message_id kval clk s = (Accepted i, s1) →
  quiet cfg uid evs s1 →
  finalizers (run cfg evs s1) !! f = Some (Some fin) →
  fin_user fin = uid →
  user_state s1 !! uid = Some (fin_state fin) →
  st_chat_id (state_at (fin_state fin) s1) = Some chat →
  produced env (fin_progress fin) = false →
  let typ := pending_type uid s in
  let a := fin_state fin in
  let s2 := run cfg evs s1 in
  let s3 := finalizer_run f env s2 in
  let diag := status_text (fin_progress fin) in
  (∃ c, c ∈ conversions (db s1) ∧ id c = i ∧ user_id c = uid
        ∧ cost c = price uid kval s ∧ status c = Done)
  ∧ (∃ job, job_state job = a
            ∧ job ∈ submitted uid (journal (sched s2))
            ∧ job ∈ started uid (journal (sched s2))
            ∧ job ∈ converted uid (journal (sched s2)))
  ∧ (∃ row row2 row3,
        users (db s) !! uid = Some row ∧ users (db s2) !! uid = Some row2
        ∧ users (db s3) !! uid = Some row3
        ∧ coins row2 = coins row - price uid kval s
        ∧ counter_of typ row2 = counter_of typ row + 1
        ∧ coins row3 = (if mark_ok env && refund_ok env then coins row else coins row2)
        ∧ counter_of typ row3 = (if mark_ok env && refund_ok env && decrement_ok env
                                 then counter_of typ row2 - 1 else counter_of typ row2)
        ∧ (mark_ok env && refund_ok env && decrement_ok env = true →
           music_count row3 = music_count row ∧ video_count row3 = video_count row))
  ∧ (if mark_ok env
     then has_row i s3
          ∧ (∀ c, c ∈ conversions (db s3) → id c = i → status c = Failed)
          ∧ (edit_message_text (Some chat) (st_status_msg_id (state_at a s1))
               (StatusError (default "(unknown)"%string (st_title (state_at a s1))) diag),
             edit_ok env) ∈ outbox s3
          ∧ (edit_ok env = false →
             (send_message chat (ConversionFailed diag), fallback_ok env) ∈ outbox s3)
     else db s3 = db s2).
Proof.
  intros Hreach Hadm Hq Hf Hu Ha Hchat Hp. cbv zeta.
  set (a := fin_state fin) in *. set (s2 := run cfg evs s1) in *.
  destruct (accepted_spec cfg _ _ _ _ _ _ _ _ Hadm)
    as (a' & row & _ & Hrow & Hc & Hi & Hcs & Hus & Ha' & Ht & Hcost & Hconv & Htitle & _).
  rewrite Ha in Ha'. injection Ha' as <-.
  assert (Hi0 : i ≠ 0) by (rewrite Hi; apply next_id_nonzero).
  assert (R1 : reachable cfg s1).
  { replace s1 with (run cfg [EvQuality uid chat_id message_id kval clk] s)
      by (simpl; rewrite Hadm; reflexivity).
    apply reachable_run, Hreach. }
  assert (R2 : reachable cfg s2) by (apply reachable_run, R1).
  assert (J : job_frame uid a s1 s2).
  { apply quiet_run; [exact Hq|]. destruct (heap_ok_reachable _ R1) as [Hr Ho].
    split; [eapply Hr, Ha | intros u H; eapply Ho; eauto | reflexivity | reflexivity]. }
  destruct J as [_ _ Jd Jw].
  destruct (booked_row uid (pending_type uid s) (price uid kval s) clk (db s) row Hrow)
    as (row1 & Hrow1 & Hc1 & Hm1 & Hv1 & _).
  rewrite <- Hus in Hrow1. rewrite <- Jw in Hrow1.
  destruct (nonneg_reachable _ Hreach _ _ Hrow) as [Hmn Hvn].
  assert (Hrow3 : has_row i s2).
  { apply has_row_run. eexists. split;
      [rewrite Hcs; apply elem_of_app; right; apply list_elem_of_singleton; reflexivity|].
    reflexivity. }
  unfold finalizer_run. rewrite Hf, Hu. fold a.
  set (s2' := with_finalizers (fun l => <[f := None]> l) s2).
  assert (E : state_at a s2' = state_at a s1) by (rewrite <- Jd; reflexivity).
  pose proof (finalize_failure env (fin_progress fin) a uid s2' chat (price uid kval s) i) as F.
  cbv zeta in F. rewrite !E in F. rewrite Ht in F.
  specialize (F Hchat Hcost Hconv Hi0 Hp). destruct F as [Hdb Hout].
  change (db s2') with (db s2) in Hdb.
  set (s3 := snd (async_finalize_and_update env (fin_progress fin) a uid s2')) in *.
  split; [|split; [|split]].
  - eexists. split;
      [rewrite Hcs; apply elem_of_app; right; apply list_elem_of_singleton; reflexivity|].
    done.
  - destruct (fin_inv_reachable _ R2 f fin Hf) as (job & Hjs & Hjc). rewrite Hu in Hjc.
    destruct (sched_inv_reachable _ R2) as [_ Hfifo Hser].
    assert (Hst : job ∈ started uid (journal (sched s2)))
      by (rewrite Hser; apply elem_of_app; auto).
    exists job. repeat split; try assumption.
    rewrite Hfifo. apply elem_of_app; auto.
  - exists row, row1.
    assert (L : ∃ row3, users (db s3) !! uid = Some row3
                ∧ coins row3 = (if mark_ok env && refund_ok env
                                then coins row1 + price uid kval s else coins row1)
                ∧ music_count row3 =
                    (if mark_ok env && refund_ok env && decrement_ok env
                     then match pending_type uid s with
                          | Some audio => clamp_dec (music_count row1)
                          | _ => music_count row1
                          end
                     else music_count row1)
                ∧ video_count row3 =
                    (if mark_ok env && refund_ok env && decrement_ok env
                     then match pending_type uid s with
                          | Some audio => video_count row1
                          | _ => clamp_dec (video_count row1)
                          end
                     else video_count row1)).
    { rewrite Hdb.
      destruct (mark_ok env), (refund_ok env), (decrement_ok env);
        destruct (pending_type uid s) as [[]|]; simpl;
        rewrite ?lookup_alter_eq; simpl in Hrow1; rewrite Hrow1; simpl;
        eexists; (split; [reflexivity|]); simpl; repeat split. }
    destruct L as (row3 & L & Lc & Lm & Lv). exists row3.
    split; [exact Hrow|]. split; [exact Hrow1|]. split; [exact L|].
    split; [exact Hc1|].
    assert (Cl : ∀ x, 0 < x → clamp_dec x = x - 1)
      by (intros x Hx; unfold clamp_dec; destruct (Z.ltb_spec 0 x); lia).
    unfold counter_of.
    destruct (mark_ok env), (refund_ok env), (decrement_ok env);
      destruct (pending_type uid s) as [[]|]; simpl in *;
      repeat case_decide; try done;
      rewrite ?Cl in * by lia;
      repeat split; try lia; intros; try lia; try discriminate.
  - destruct (mark_ok env) eqn:Hm; [|exact Hdb].
    destruct (Hout eq_refl) as [Hedit Hfall].
    assert (Hcs3 : conversions (db s3)
                   = update_where_id i (fun c => set_status Failed (refunded c) c)
                       (conversions (db s2))).
    { rewrite Hdb. destruct (refund_ok env), (decrement_ok env);
        rewrite ?conversions_after_refund; try reflexivity;
        destruct (pending_type uid s) as [[]|]; reflexivity. }
    split; [|split; [|split]].
    + destruct Hrow3 as (c & Hin & Hid). unfold has_row. rewrite Hcs3.
      eexists. split; [apply list_elem_of_fmap; exists c; split; [reflexivity | exact Hin]|].
      simpl. destruct (id c =? i); simpl; exact Hid.
    + intros c Hin Hid. rewrite Hcs3 in Hin.
      apply update_where_id_status in Hin as (x & _ & _ & ->); done.
    + exact Hedit.
    + exact Hfall.
Qed.

End Reach.

Lemma production_failure_run_witness :
  let s2 := run default_config meanwhile queued in
  let s3 := finalizer_run 0 all_ok s2 in
  (coins <$> users (db ready) !! 7 = Some 500
   ∧ coins <$> users (db s2) !! 7 = Some 480
   ∧ coins <$> users (db s3) !! 7 = Some 500)
  ∧ (∃ job, job_state job = 0%nat
            ∧ job ∈ submitted 7 (journal (sched s2))
            ∧ job ∈ started 7 (journal (sched s2))
            ∧ job ∈ converted 7 (journal (sched s2)))
  ∧ has_row 1 s3
  ∧ (∀ c, c ∈ conversions (db s3) → id c = 1 → status c = Failed).
Proof.
  assert (H1 : reachable default_config ready) by (eexists; reflexivity).
  assert (H2 : callback_quality default_config 7 7 4 128 (at_time 2000000) ready
               = (Accepted 1, queued)) by (vm_compute; reflexivity).
  assert (H3 : quiet default_config 7 meanwhile queued).
  { unfold meanwhile. cbn [quiet].
    repeat (split; [first [left; reflexivity | right; discriminate]|]). exact I. }
  assert (H4 : finalizers (run default_config meanwhile queued) !! 0%nat
               = Some (Some failed_job)) by (vm_compute; reflexivity).
  assert (H5 : user_state queued !! 7 = Some (fin_state failed_job))
    by (vm_compute; reflexivity).
  assert (H6 : st_chat_id (state_at (fin_state failed_job) queued) = Some 7)
    by (vm_compute; reflexivity).
  pose proof (production_failure_run default_config 7 7 4 128 (at_time 2000000) ready 1
                queued meanwhile 0%nat failed_job all_ok 7 H1 H2 H3 H4 eq_refl H5 H6 eq_refl)
    as T.
  cbv zeta in T. destruct T as (_ & T2 & _ & T4). cbn [mark_ok all_ok] in T4.
  destruct T4 as (T5 & T6 & _).
  split; [repeat split; vm_compute; reflexivity|].
  split; [exact T2|]. split; [exact T5 | exact T6].
Defined.

(** C8, as the claim has it, does not hold when [refund_coins] raises: the
    job of [queued] is run, yt-dlp raises, and in the finaliser the store
    raises in [refund_coins]. The exception is swallowed: the row reads
    [failed], and the balance stays at 480, not at the 500 before admission;
    the counter stays at 1. *)
Lemma refund_error_is_swallowed :
  let s3 := finalizer_run 0 refund_raises (run default_config meanwhile queued) in
  callback_quality default_config 7 7 4 128 (at_time 2000000) ready = (Accepted 1, queued)
  ∧ coins <$> users (db ready) !! 7 = Some 500
  ∧ map (fun c => (id c, status c)) (conversions (db s3)) = [(1, Failed)]
  ∧ coins <$> users (db s3) !! 7 = Some 480
  ∧ music_count <$> users (db s3) !! 7 = Some 1
  ∧ coins <$> users (db s3) !! 7 ≠ coins <$> users (db ready) !! 7.
Proof. vm_compute. repeat split; discriminate. Qed.


(** ** The daily limit *)

Section DailyWindow.

Context (cfg : Config).














End DailyWindow.


